(** * The Endee Python client ([endee_client/client.py]): request construction
      and response handling

    [EndeeClient] turns every method call into one call of
    [requests.Session.request] and maps the answer to a Python value or to one
    of its two exceptions.  The development embeds the client method by method:
    Python values as an inductive type, dictionaries as finite maps, the
    session and the network as the single effect of a small program monad that
    also threads [self] and exceptions. *)

From Stdlib Require Import ZArith String Ascii Floats.
From stdpp Require Import gmap strings list fin_maps pretty.

Local Open Scope Z_scope.

(** ** Python values *)

(** Keys of the dictionaries the client handles: [Dict[str, Any]] for payloads
    and decoded bodies, [Dict[int, float]] for sparse vectors. *)
Inductive pykey :=
| KStr (s : string)
| KInt (z : Z).

#[global] Instance pykey_eq_dec : EqDecision pykey.
Proof. solve_decision. Defined.

#[global] Instance pykey_countable : Countable pykey.
Proof.
  refine (inj_countable'
            (λ k, match k with KStr s => inl s | KInt z => inr z end)
            (λ x, match x with inl s => KStr s | inr z => KInt z end) _).
  by intros [].
Defined.

(** The JSON-compatible values: what the caller passes as payload and what
    [response.json()] returns. *)
#[warnings="-register-all"]
Inductive pyval :=
| PyNone
| PyBool (b : bool)
| PyInt (z : Z)
| PyFloat (f : float)
| PyStr (s : string)
| PyList (l : list pyval)
| PyDict (d : gmap pykey pyval).

(** Exceptions that occur in [client.py].  [RequestException e] stands for the
    transport failures of [requests] (connection refused, timeout, ...) with
    [e] the text of [str(e)].  [JSONDecodeError] is what [response.json()]
    raises on a body that is not JSON: under requests 2.25, the oldest version
    [setup.py] admits, it is a [ValueError] and not a [RequestException]; newer
    versions make it a [RequestException] too, whose text is the decoder's
    own.  The model follows the former; nothing below depends on that path. *)
Inductive exn :=
| TypeError
| KeyError
| JSONDecodeError
| RequestException (e : string)
| EndeeConnectionError (msg : string)
| EndeeAPIError (message : pyval) (status_code : Z) (response_body : string).

Inductive result (A : Type) :=
| Return (a : A)
| Raise (e : exn).
Arguments Return {A} a.
Arguments Raise {A} e.

Definition result_bind {A B} (r : result A) (f : A → result B) : result B :=
  match r with
  | Return a => f a
  | Raise e => Raise e
  end.

(** Truth value testing ([if x:], [x or y]). *)
Class Truthy (A : Type) := truthy : A → bool.

#[global] Instance truthy_string : Truthy string :=
  λ s, match s with EmptyString => false | String _ _ => true end.
#[global] Instance truthy_gmap `{Countable K} {V} : Truthy (gmap K V) :=
  λ d, bool_decide (d ≠ ∅).
#[global] Instance truthy_option `{Truthy A} : Truthy (option A) :=
  λ o, match o with Some a => truthy a | None => false end.

(** [s.rstrip(c)]: every trailing occurrence of [c] is dropped. *)
Fixpoint rstrip (c : ascii) (s : string) : string :=
  match s with
  | EmptyString => EmptyString
  | String a r =>
      match rstrip c r with
      | EmptyString => if Ascii.eqb a c then EmptyString else String a EmptyString
      | r' => String a r'
      end
  end.

(** [item in container] for a string [item]; numbers, booleans and [None] are
    not iterable. *)
Definition py_contains (item : string) (container : pyval) : result bool :=
  match container with
  | PyDict d => Return (bool_decide (is_Some (d !! KStr item)))
  | PyList l =>
      Return (existsb (λ v, match v with
                            | PyStr s => bool_decide (s = item)
                            | _ => false
                            end) l)
  | PyStr s => Return (match index 0 item s with Some _ => true | None => false end)
  | PyNone | PyBool _ | PyInt _ | PyFloat _ => Raise TypeError
  end.

(** [container[key]] for a string [key] that [py_contains] found. *)
Definition py_getitem (container : pyval) (key : string) : result pyval :=
  match container with
  | PyDict d => match d !! KStr key with Some v => Return v | None => Raise KeyError end
  | _ => Raise TypeError
  end.

(** ** The JSON decoder behind [response.json()]

    A recursive-descent decoder after Python's [json] module: strict strings,
    the number grammar, [NaN] and [Infinity], last binding wins for a repeated
    key, nothing but white space after the document.  Text is a string of
    bytes (UTF-8). *)

Definition dquote : ascii := "034"%char.
Definition backslash : ascii := "\"%char.

Definition is_ws (c : ascii) : bool :=
  bool_decide (c ∈ [" "; "009"; "010"; "013"]%char).

Fixpoint skip_ws (s : string) : string :=
  match s with
  | String c r => if is_ws c then skip_ws r else s
  | EmptyString => s
  end.

Fixpoint strip_prefix (p s : string) : option string :=
  match p, s with
  | EmptyString, _ => Some s
  | String a p', String b s' => if Ascii.eqb a b then strip_prefix p' s' else None
  | String _ _, EmptyString => None
  end.

Definition digit_of (c : ascii) : option Z :=
  let n := Z.of_N (N_of_ascii c) in
  if (48 <=? n) && (n <=? 57) then Some (n - 48) else None.

Definition hex_of (c : ascii) : option Z :=
  let n := Z.of_N (N_of_ascii c) in
  if (48 <=? n) && (n <=? 57) then Some (n - 48)
  else if (65 <=? n) && (n <=? 70) then Some (n - 55)
  else if (97 <=? n) && (n <=? 102) then Some (n - 87)
  else None.

Definition hex4 (a b c d : ascii) : option Z :=
  x ← hex_of a; y ← hex_of b; z ← hex_of c; w ← hex_of d;
  Some (((x * 16 + y) * 16 + z) * 16 + w).

Definition byte (n : Z) : ascii := ascii_of_N (Z.to_N n).

(** [chr(cp)] as UTF-8. *)
Definition utf8_encode (cp : Z) (tail : string) : string :=
  if cp <? 128 then String (byte cp) tail
  else if cp <? 2048 then
    String (byte (192 + cp / 64)) (String (byte (128 + cp mod 64)) tail)
  else if cp <? 65536 then
    String (byte (224 + cp / 4096))
      (String (byte (128 + (cp / 64) mod 64)) (String (byte (128 + cp mod 64)) tail))
  else
    String (byte (240 + cp / 262144))
      (String (byte (128 + (cp / 4096) mod 64))
         (String (byte (128 + (cp / 64) mod 64)) (String (byte (128 + cp mod 64)) tail))).

Definition unescape (c : ascii) : option ascii :=
  if Ascii.eqb c dquote then Some dquote
  else if Ascii.eqb c backslash then Some backslash
  else if Ascii.eqb c "/" then Some "/"%char
  else if Ascii.eqb c "b" then Some "008"%char
  else if Ascii.eqb c "f" then Some "012"%char
  else if Ascii.eqb c "n" then Some "010"%char
  else if Ascii.eqb c "r" then Some "013"%char
  else if Ascii.eqb c "t" then Some "009"%char
  else None.

(** The text after [c] when [s] starts with [c]. *)
Definition expect (c : ascii) (s : string) : option string :=
  match s with
  | String a r => if Ascii.eqb a c then Some r else None
  | EmptyString => None
  end.

(** [scanstring]: the text after an opening quote, up to the closing one.  A
    high surrogate escape followed by a low one is one code point. *)
Fixpoint scanstring (s : string) : option (string * string) :=
  match s with
  | EmptyString => None
  | String c r =>
      if Ascii.eqb c dquote then Some (EmptyString, r)
      else if Ascii.eqb c backslash then
        match r with
        | EmptyString => None
        | String e r1 =>
            if Ascii.eqb e "u" then
              match r1 with
              | String h1 (String h2 (String h3 (String h4 r2))) =>
                  uni ← hex4 h1 h2 h3 h4;
                  let plain :=
                    '(str, rest) ← scanstring r2; Some (utf8_encode uni str, rest) in
                  if (55296 <=? uni) && (uni <=? 56319) then
                    match r2 with
                    | String b1 (String b2 r3) =>
                        if Ascii.eqb b1 backslash && Ascii.eqb b2 "u" then
                          match r3 with
                          | String l1 (String l2 (String l3 (String l4 r4))) =>
                              uni2 ← hex4 l1 l2 l3 l4;
                              if (56320 <=? uni2) && (uni2 <=? 57343) then
                                '(str, rest) ← scanstring r4;
                                Some (utf8_encode
                                        (65536 + ((uni - 55296) * 1024 + (uni2 - 56320)))
                                        str, rest)
                              else plain
                          | _ => None
                          end
                        else plain
                    | _ => plain
                    end
                  else plain
              | _ => None
              end
            else
              ch ← unescape e; '(str, rest) ← scanstring r1; Some (String ch str, rest)
        end
      else if (N_of_ascii c <? 32)%N then None
      else '(str, rest) ← scanstring r; Some (String c str, rest)
  end.

(** The longest run of decimal digits at the head of [s], as their number and
    their count. *)
Fixpoint span_digits (acc : Z) (n : Z) (s : string) : Z * Z * string :=
  match s with
  | String c r =>
      match digit_of c with
      | Some d => span_digits (acc * 10 + d) (n + 1) r
      | None => (acc, n, s)
      end
  | EmptyString => (acc, n, s)
  end.

(** [float(text)] for the decimal [m * 10^e], rounded to the nearest double. *)
Definition float_of_decimal (neg : bool) (m e : Z) : float :=
  SF2Prim
    match m with
    | Zpos p =>
        if 0 <=? e then binary_round prec emax neg (p * Z.to_pos (10 ^ e)) 0
        else SFdiv prec emax (S754_finite neg p 0) (S754_finite false (Z.to_pos (10 ^ (- e))) 0)
    | _ => S754_zero neg
    end.

(** [NUMBER_RE] has three groups: the integer (an optional minus, then 0 or a
    digit string without leading zero), an optional fraction (a dot and
    digits) and an optional exponent (e or E, an optional sign, digits). *)
Definition match_integer (s : string) : option (bool * Z * string) :=
  let '(neg, s1) := match expect "-" s with Some r => (true, r) | None => (false, s) end in
  match expect "0" s1 with
  | Some r => Some (neg, 0, r)
  | None =>
      let '(i, n, r) := span_digits 0 0 s1 in
      if 0 <? n then Some (neg, i, r) else None
  end.

(** The digits of the fraction and their count. *)
Definition match_frac (s : string) : option (Z * Z) * string :=
  match expect "." s with
  | Some r =>
      let '(f, n, r') := span_digits 0 0 r in
      if 0 <? n then (Some (f, n), r') else (None, s)
  | None => (None, s)
  end.

Definition match_exp (s : string) : option Z * string :=
  match (match expect "e" s with Some r => Some r | None => expect "E" s end) with
  | Some r =>
      let '(eneg, r') :=
        match expect "-" r, expect "+" r with
        | Some t, _ => (true, t)
        | None, Some t => (false, t)
        | None, None => (false, r)
        end in
      let '(x, n, r'') := span_digits 0 0 r' in
      if 0 <? n then (Some (if eneg : bool then - x else x), r'') else (None, s)
  | None => (None, s)
  end.

(** An integer literal decodes to [int], one with a fraction or an exponent to
    [float]. *)
Definition match_number (s : string) : option (pyval * string) :=
  '(neg, i, r1) ← match_integer s;
  let '(frac, r2) := match_frac r1 in
  let '(exp, r3) := match_exp r2 in
  match frac, exp with
  | None, None => Some (PyInt (if neg : bool then - i else i), r3)
  | _, _ =>
      let '(f, n) := default (0, 0) frac in
      Some (PyFloat (float_of_decimal neg (i * 10 ^ n + f) (default 0 exp - n)), r3)
  end.

(** The literals of [_scan_once] other than strings, arrays and objects, in
    the order it tries them. *)
Definition scan_atom (s : string) : option (pyval * string) :=
  match strip_prefix "null" s, strip_prefix "true" s, strip_prefix "false" s with
  | Some rest, _, _ => Some (PyNone, rest)
  | None, Some rest, _ => Some (PyBool true, rest)
  | None, None, Some rest => Some (PyBool false, rest)
  | None, None, None =>
      match match_number s with
      | Some v => Some v
      | None =>
          match strip_prefix "NaN" s, strip_prefix "Infinity" s,
                strip_prefix "-Infinity" s with
          | Some rest, _, _ => Some (PyFloat nan, rest)
          | None, Some rest, _ => Some (PyFloat infinity, rest)
          | None, None, Some rest => Some (PyFloat neg_infinity, rest)
          | None, None, None => None
          end
      end
  end.

(** [_scan_once], [JSONObject] after the opening brace and [JSONArray] after
    the opening bracket, the latter two at the first key and the first value. *)
Fixpoint scan_once (fuel : nat) (s : string) : option (pyval * string) :=
  match fuel with
  | O => None
  | S fuel =>
      match expect dquote s, expect "{" s, expect "[" s with
      | Some r, _, _ => '(str, rest) ← scanstring r; Some (PyStr str, rest)
      | None, Some r, _ =>
          match expect "}" (skip_ws r) with
          | Some rest => Some (PyDict ∅, rest)
          | None => JSONObject fuel (skip_ws r) ∅
          end
      | None, None, Some r =>
          match expect "]" (skip_ws r) with
          | Some rest => Some (PyList [], rest)
          | None => JSONArray fuel (skip_ws r) []
          end
      | None, None, None => scan_atom s
      end
  end
with JSONObject (fuel : nat) (s : string) (pairs : gmap pykey pyval)
  : option (pyval * string) :=
  match fuel with
  | O => None
  | S fuel =>
      r ← expect dquote s;
      '(key, r1) ← scanstring r;
      r2 ← expect ":" (skip_ws r1);
      '(value, r3) ← scan_once fuel (skip_ws r2);
      let pairs := <[KStr key := value]> pairs in
      match expect "}" (skip_ws r3), expect "," (skip_ws r3) with
      | Some rest, _ => Some (PyDict pairs, rest)
      | None, Some r4 => JSONObject fuel (skip_ws r4) pairs
      | None, None => None
      end
  end
with JSONArray (fuel : nat) (s : string) (values : list pyval)
  : option (pyval * string) :=
  match fuel with
  | O => None
  | S fuel =>
      '(value, r1) ← scan_once fuel s;
      match expect "]" (skip_ws r1), expect "," (skip_ws r1) with
      | Some rest, _ => Some (PyList (values ++ [value]), rest)
      | None, Some r2 => JSONArray fuel (skip_ws r2) (values ++ [value])
      | None, None => None
      end
  end.

(** [json.loads]: one document between optional white space.  Every nested
    call consumes input, so twice the length of the text is fuel enough
    ([json_loads_fuel] below). *)
Definition json_loads (s : string) : result pyval :=
  match scan_once (2 * String.length s + 2) (skip_ws s) with
  | Some (obj, rest) =>
      match skip_ws rest with
      | EmptyString => Return obj
      | String _ _ => Raise JSONDecodeError
      end
  | None => Raise JSONDecodeError
  end.

(** Conversion of typed arguments to the values put into a payload. *)
Class ToPy (A : Type) := to_py : A → pyval.

#[global] Instance to_py_pyval : ToPy pyval := id.
#[global] Instance to_py_bool : ToPy bool := PyBool.
#[global] Instance to_py_Z : ToPy Z := PyInt.
#[global] Instance to_py_float : ToPy float := PyFloat.
#[global] Instance to_py_string : ToPy string := PyStr.
#[global] Instance to_py_list `{ToPy A} : ToPy (list A) := λ l, PyList (to_py <$> l).
#[global] Instance to_py_dict : ToPy (gmap pykey pyval) := PyDict.
#[global] Instance to_py_sparse : ToPy (gmap Z float) :=
  λ d, PyDict (kmap KInt (PyFloat <$> d)).
(** An [Optional] argument: [None] is Python's [None]. *)
#[global] Instance to_py_option `{ToPy A} : ToPy (option A) :=
  λ o, match o with Some a => to_py a | None => PyNone end.

(** ** The session and the network *)

(** The response that [session.request] returns, as far as [client.py] reads
    it: [status_code] and [text]. *)
Record Response := {
  status_code : Z;
  text : string;
}.

(** [response.json()] *)
Definition Response_json (response : Response) : result pyval :=
  json_loads (text response).

(** One call of [requests.Session.request] as [client.py] makes it: the
    arguments [method], [url], [json], [params] and [timeout], and in
    [req_headers] the [headers] argument merged over the headers the session
    has at the time of the call, the setting from which requests starts to
    prepare the request.  This is what the client hands over, not what
    travels: requests goes on to re-quote the URL, to serialise the body and
    add its headers, to apply credentials and cookies and to follow
    redirects, and it may refuse to send at all.  The word request stands for
    such a call in what follows. *)
Record PreparedRequest := {
  req_method : string;
  req_url : string;
  req_headers : gmap string string;
  req_json : option pyval;
  req_params : option pyval;
  req_timeout : Z;
}.

(** [requests.Session] as far as the client touches it: the header settings,
    which [__init__] updates, and whether [close()] has released its pooled
    connections.  A closed session keeps its adapters and opens a new
    connection for the next request: [closed] plays no part in
    [Session_request].  Header names are compared as written; the client uses
    the one name [Authorization].  What the session keeps for itself from one
    call to the next (its cookie jar, its pooled connections) is behind
    [session.request] and belongs to the [transport] below. *)
Record Session := {
  headers : gmap string string;
  closed : bool;
}.

Definition Session_close (s : Session) : Session :=
  {| headers := headers s; closed := true |}.

(** [merge_setting(request_setting, session_setting)] of [requests.sessions]
    for header dictionaries without [None] values. *)
Definition merge_setting (request_setting : option (gmap string string))
    (session_setting : gmap string string) : gmap string string :=
  match request_setting with
  | None => session_setting
  | Some h => h ∪ session_setting
  end.

(** Programs: a value, or one call of [session.request] and a continuation on
    its outcome, which is the response returned or the text of the
    [RequestException] raised.  Exceptions of other classes that
    [session.request] may raise are not modelled. *)
Inductive io (A : Type) : Type :=
| Pure (a : A)
| Send (req : PreparedRequest) (k : Response + string → io A).
Arguments Pure {A} a.
Arguments Send {A} req k.

Fixpoint io_bind {A B} (p : io A) (f : A → io B) : io B :=
  match p with
  | Pure a => f a
  | Send req k => Send req (λ o, io_bind (k o) f)
  end.

(** All that is behind [session.request]: requests itself, the network and the
    server.  The outcome of a call is given from the calls made before it:
    the server keeps state, and so does the session (cookies, connections). *)
Definition transport : Type := list PreparedRequest → PreparedRequest → Response + string.

(** Running a program against a transport, from the log of the calls of
    [session.request] made so far. *)
Fixpoint run {A} (t : transport) (log : list PreparedRequest) (p : io A)
  : A * list PreparedRequest :=
  match p with
  | Pure a => (a, log)
  | Send req k => run t (log ++ [req]) (k (t log req))
  end.

(** ** The client *)

Record EndeeClient := {
  base_url : string;
  auth_token : option string;
  timeout : Z;
  _session : Session;
}.

(** Method bodies: they read and may update [self], perform requests, and
    return or raise. *)
Definition M (A : Type) : Type := EndeeClient → io (result A * EndeeClient).

#[global] Instance result_ret : MRet result := @Return.
#[global] Instance result_mbind : MBind result := λ A B f r, result_bind r f.

#[global] Instance M_ret : MRet M := λ A a self, Pure (Return a, self).
#[global] Instance M_bind : MBind M := λ A B f m self,
  io_bind (m self) (λ '(r, self'),
    match r with
    | Return a => f a self'
    | Raise e => Pure (Raise e, self')
    end).

Definition raise {A} (e : exn) : M A := λ self, Pure (Raise e, self).
Definition get_self : M EndeeClient := λ self, Pure (Return self, self).
Definition put_self (self' : EndeeClient) : M () := λ _, Pure (Return (), self').
Definition lift {A} (r : result A) : M A := λ self, Pure (r, self).

(** [try: body except ...: handler]; [handler e = None] when no clause matches
    [e], which then propagates. *)
Definition try_except {A} (body : M A) (handler : exn → option (M A)) : M A :=
  λ self,
    io_bind (body self) (λ '(r, self'),
      match r with
      | Return a => Pure (Return a, self')
      | Raise e =>
          match handler e with
          | Some h => h self'
          | None => Pure (Raise e, self')
          end
      end).

(** [session.request(method=..., url=..., json=..., params=..., headers=...,
    timeout=...)] *)
Definition Session_request (s : Session) (method url : string)
    (json params : option pyval) (hdrs : option (gmap string string))
    (timeout : Z) : M Response :=
  λ self,
    Send {| req_method := method; req_url := url;
            req_headers := merge_setting hdrs (headers s);
            req_json := json; req_params := params; req_timeout := timeout |}
         (λ o, match o with
               | inl response => Pure (Return response, self)
               | inr e => Pure (Raise (RequestException e), self)
               end).

Section Construction.
(** [requests.utils.default_headers()], the headers of a fresh session
    (User-Agent, Accept-Encoding, Accept, Connection). *)
Variable default_headers : gmap string string.

(** [requests.Session()] *)
Definition requests_Session : Session :=
  {| headers := default_headers; closed := false |}.

(** [EndeeClient.__init__]; an omitted argument is [None] here. *)
Definition __init__ (base_url : option string) (auth_token : option string)
    (timeout : option Z) : EndeeClient :=
  let base_url := default "http://localhost:8080" base_url in
  let timeout := default 30 timeout in
  let session := requests_Session in
  let session :=
    match auth_token with          (* [if self.auth_token:] *)
    | Some token =>
        if truthy token then
          {| headers := {["Authorization" := token]} ∪ headers session;
             closed := closed session |}
        else session
    | None => session
    end in
  {| base_url := rstrip "/" base_url; auth_token := auth_token;
     timeout := timeout; _session := session |}.
End Construction.

Definition _request (method endpoint : string) (json_data params : option pyval)
    (hdrs : option (gmap string string)) : M pyval :=
  self ← get_self;
  let url := base_url self +:+ endpoint in
  try_except
    (response ← Session_request (_session self) method url json_data params hdrs
                  (timeout self);
     if status_code response >=? 400 then
       let error_msg :=
         PyStr ("API request failed with status " +:+ pretty (status_code response)) in
       let error_msg :=
         match (error_data ← Response_json response;
                found ← py_contains "error" error_data;
                if found : bool then py_getitem error_data "error"
                else Return error_msg) with
         | Return msg => msg
         | Raise _ =>
             if truthy (text response) then PyStr (text response) else error_msg
         end in
       raise (EndeeAPIError error_msg (status_code response) (text response))
     else if truthy (text response) then lift (Response_json response)
     else mret (PyDict ∅))
    (λ e, match e with
          | RequestException e =>
              Some (raise (EndeeConnectionError
                             ("Failed to connect to Endee server: " +:+ e)))
          | _ => None
          end).

(** *** Health and info *)

Definition health_check : M pyval :=
  _request "GET" "/api/v1/health" None None None.

Definition get_stats : M pyval :=
  _request "GET" "/api/v1/stats" None None None.

(** *** Index management *)

Definition create_index (index_name : string) (dim : Z) (space_type : option string)
    (ef_construction m : option Z) (quant_type : option string)
    (enable_sparse : option bool) : M pyval :=
  let space_type := default "l2" space_type in
  let ef_construction := default 200 ef_construction in
  let m := default 16 m in
  let quant_type := default "none" quant_type in
  let enable_sparse := default false enable_sparse in
  let data : gmap pykey pyval :=
    {[ KStr "index_name" := to_py index_name;
       KStr "dim" := to_py dim;
       KStr "space_type" := to_py space_type;
       KStr "ef_construction" := to_py ef_construction;
       KStr "m" := to_py m;
       KStr "quant_type" := to_py quant_type;
       KStr "enable_sparse" := to_py enable_sparse ]} in
  _request "POST" "/api/v1/index/create" (Some (to_py data)) None None.

Definition list_indexes : M pyval :=
  _request "GET" "/api/v1/index/list" None None None.

Definition get_index_info (index_name : string) : M pyval :=
  _request "GET" ("/api/v1/index/" +:+ index_name +:+ "/info") None None None.

Definition delete_index (index_name : string) : M pyval :=
  _request "DELETE" ("/api/v1/index/" +:+ index_name +:+ "/delete") None None None.

(** *** Vector operations *)

Definition insert_vectors (index_name : string) (vectors : list (gmap pykey pyval))
  : M pyval :=
  _request "POST" ("/api/v1/index/" +:+ index_name +:+ "/vector/insert")
    (Some (to_py vectors)) None None.

Definition search_vectors (index_name : string) (vector : list float) (k : option Z)
    (ef_search : option Z) (filter_expr : option string)
    (sparse_vector : option (gmap Z float)) : M pyval :=
  let k := default 10 k in
  let data : gmap pykey pyval :=
    {[ KStr "vector" := to_py vector; KStr "k" := to_py k ]} in
  let data :=
    if bool_decide (ef_search ≠ None)
    then <[KStr "ef_search" := to_py ef_search]> data else data in
  let data :=
    if truthy filter_expr
    then <[KStr "filter" := to_py filter_expr]> data else data in
  let data :=
    if truthy sparse_vector
    then <[KStr "sparse_vector" := to_py sparse_vector]> data else data in
  _request "POST" ("/api/v1/index/" +:+ index_name +:+ "/search")
    (Some (to_py data)) None None.

Definition get_vector (index_name : string) (vector_ids : list string) : M pyval :=
  let data : gmap pykey pyval := {[ KStr "ids" := to_py vector_ids ]} in
  _request "POST" ("/api/v1/index/" +:+ index_name +:+ "/vector/get")
    (Some (to_py data)) None None.

Definition delete_vector (index_name vector_id : string) : M pyval :=
  _request "DELETE"
    ("/api/v1/index/" +:+ index_name +:+ "/vector/" +:+ vector_id +:+ "/delete")
    None None None.

Definition delete_vectors (index_name : string) (vector_ids : list string) : M pyval :=
  let data : gmap pykey pyval := {[ KStr "ids" := to_py vector_ids ]} in
  _request "POST" ("/api/v1/index/" +:+ index_name +:+ "/vectors/delete")
    (Some (to_py data)) None None.

Definition update_filters (index_name : string) (updates : list (gmap pykey pyval))
  : M pyval :=
  _request "POST" ("/api/v1/index/" +:+ index_name +:+ "/filters/update")
    (Some (to_py updates)) None None.

(** *** Backups *)

Definition create_backup (index_name : string) : M pyval :=
  _request "POST" ("/api/v1/index/" +:+ index_name +:+ "/backup") None None None.

Definition list_backups : M pyval :=
  _request "GET" "/api/v1/backups" None None None.

Definition restore_backup (backup_name : string) : M pyval :=
  _request "POST" ("/api/v1/backups/" +:+ backup_name +:+ "/restore") None None None.

Definition delete_backup (backup_name : string) : M pyval :=
  _request "DELETE" ("/api/v1/backups/" +:+ backup_name) None None None.

(** *** Session lifecycle *)

(** [self._session.close()] *)
Definition close : M pyval :=
  self ← get_self;
  put_self {| base_url := base_url self; auth_token := auth_token self;
              timeout := timeout self;
              _session := Session_close (_session self) |};;
  mret PyNone.

Definition __enter__ : M EndeeClient := get_self.

Definition __exit__ : M pyval := close.

(** ** Invocations

    The sixteen methods of the API surface with their arguments, so that a
    statement can range over every method call. *)
Inductive api_call :=
| call_health_check
| call_get_stats
| call_create_index (index_name : string) (dim : Z) (space_type : option string)
    (ef_construction m : option Z) (quant_type : option string)
    (enable_sparse : option bool)
| call_list_indexes
| call_get_index_info (index_name : string)
| call_delete_index (index_name : string)
| call_insert_vectors (index_name : string) (vectors : list (gmap pykey pyval))
| call_search_vectors (index_name : string) (vector : list float) (k : option Z)
    (ef_search : option Z) (filter_expr : option string)
    (sparse_vector : option (gmap Z float))
| call_get_vector (index_name : string) (vector_ids : list string)
| call_delete_vector (index_name vector_id : string)
| call_delete_vectors (index_name : string) (vector_ids : list string)
| call_update_filters (index_name : string) (updates : list (gmap pykey pyval))
| call_create_backup (index_name : string)
| call_list_backups
| call_restore_backup (backup_name : string)
| call_delete_backup (backup_name : string).

Definition invoke (c : api_call) : M pyval :=
  match c with
  | call_health_check => health_check
  | call_get_stats => get_stats
  | call_create_index n d s e m q sp => create_index n d s e m q sp
  | call_list_indexes => list_indexes
  | call_get_index_info n => get_index_info n
  | call_delete_index n => delete_index n
  | call_insert_vectors n vs => insert_vectors n vs
  | call_search_vectors n v k e f sp => search_vectors n v k e f sp
  | call_get_vector n ids => get_vector n ids
  | call_delete_vector n id => delete_vector n id
  | call_delete_vectors n ids => delete_vectors n ids
  | call_update_filters n us => update_filters n us
  | call_create_backup n => create_backup n
  | call_list_backups => list_backups
  | call_restore_backup n => restore_backup n
  | call_delete_backup n => delete_backup n
  end.

(** What a caller can do with a client: call a method of the API, or close. *)
Inductive op :=
| Api (c : api_call)
| Close.

Definition perform (o : op) : M pyval :=
  match o with
  | Api c => invoke c
  | Close => close
  end.

(** [try: r = m() except Exception as e: r = e]: the caller keeps going. *)
Definition attempt {A} (m : M A) : M (result A) :=
  λ self, io_bind (m self) (λ '(r, self'), Pure (Return r, self')).

(** A caller performing operations one after the other on the same client. *)
Fixpoint script (ops : list op) : M (list (result pyval)) :=
  match ops with
  | [] => mret []
  | o :: ops => r ← attempt (perform o); rs ← script ops; mret (r :: rs)
  end.

(** Observations of a run. *)
Definition outcome {A} (x : result A * EndeeClient * list PreparedRequest) : result A :=
  x.1.1.
Definition final_self {A} (x : result A * EndeeClient * list PreparedRequest)
  : EndeeClient := x.1.2.
Definition sent {A} (x : result A * EndeeClient * list PreparedRequest)
  : list PreparedRequest := x.2.

(** ** The documented surface

    The path of each method as section 4.1 of the specification tabulates it,
    over an escaping function for the path parameters. *)
Module Spec.

(** Percent-escaping of a path segment: unreserved characters (letters,
    digits, [-], [.], [_], [~]) stay, every other byte becomes [%XX]. *)
Definition unreserved (c : ascii) : bool :=
  let n := N_of_ascii c in
  ((48 <=? n) && (n <=? 57) || (65 <=? n) && (n <=? 90)
   || (97 <=? n) && (n <=? 122))%N
  || bool_decide (c ∈ ["-"; "."; "_"; "~"]%char).

Definition hex_digit (n : N) : ascii :=
  ascii_of_N (if (n <? 10)%N then 48 + n else 55 + n).

Fixpoint percent_escape (s : string) : string :=
  match s with
  | EmptyString => EmptyString
  | String c r =>
      if unreserved c then String c (percent_escape r)
      else String "%" (String (hex_digit (N_of_ascii c / 16))
                         (String (hex_digit (N_of_ascii c mod 16)) (percent_escape r)))
  end.

Definition documented_path (esc : string → string) (c : api_call) : string :=
  match c with
  | call_health_check => "/api/v1/health"
  | call_get_stats => "/api/v1/stats"
  | call_create_index _ _ _ _ _ _ _ => "/api/v1/index/create"
  | call_list_indexes => "/api/v1/index/list"
  | call_get_index_info n => "/api/v1/index/" +:+ esc n +:+ "/info"
  | call_delete_index n => "/api/v1/index/" +:+ esc n +:+ "/delete"
  | call_insert_vectors n _ => "/api/v1/index/" +:+ esc n +:+ "/vector/insert"
  | call_search_vectors n _ _ _ _ _ => "/api/v1/index/" +:+ esc n +:+ "/search"
  | call_get_vector n _ => "/api/v1/index/" +:+ esc n +:+ "/vector/get"
  | call_delete_vector n id =>
      "/api/v1/index/" +:+ esc n +:+ "/vector/" +:+ esc id +:+ "/delete"
  | call_delete_vectors n _ => "/api/v1/index/" +:+ esc n +:+ "/vectors/delete"
  | call_update_filters n _ => "/api/v1/index/" +:+ esc n +:+ "/filters/update"
  | call_create_backup n => "/api/v1/index/" +:+ esc n +:+ "/backup"
  | call_list_backups => "/api/v1/backups"
  | call_restore_backup n => "/api/v1/backups/" +:+ esc n +:+ "/restore"
  | call_delete_backup n => "/api/v1/backups/" +:+ esc n
  end.

Definition documented_method (c : api_call) : string :=
  match c with
  | call_health_check | call_get_stats | call_list_indexes
  | call_get_index_info _ | call_list_backups => "GET"
  | call_delete_index _ | call_delete_vector _ _ | call_delete_backup _ => "DELETE"
  | _ => "POST"
  end.

End Spec.

(** ** Notions used in the statements *)

(** The last character of a string, if any. *)
Fixpoint last_char (s : string) : option ascii :=
  match s with
  | EmptyString => None
  | String a EmptyString => Some a
  | String _ r => last_char r
  end.

(** [n] copies of a character. *)
Fixpoint repeat_char (c : ascii) (n : nat) : string :=
  match n with
  | O => EmptyString
  | S n => String c (repeat_char c n)
  end.

(** The request that [_request] hands to the session. *)
Definition request_of (self : EndeeClient) (method endpoint : string)
    (json_data params : option pyval) (hdrs : option (gmap string string))
  : PreparedRequest :=
  {| req_method := method; req_url := base_url self +:+ endpoint;
     req_headers := merge_setting hdrs (headers (_session self));
     req_json := json_data; req_params := params; req_timeout := timeout self |}.

(** Two clients with the same configuration; the sessions may differ in
    whether they were closed. *)
Definition same_config (a b : EndeeClient) : Prop :=
  base_url a = base_url b ∧ auth_token a = auth_token b ∧ timeout a = timeout b
  ∧ headers (_session a) = headers (_session b).

(** [self] after [close()]. *)
Definition closed_client (self : EndeeClient) : EndeeClient :=
  {| base_url := base_url self; auth_token := auth_token self;
     timeout := timeout self; _session := Session_close (_session self) |}.

(** ** Scenarios *)

Definition q : string := String dquote "".

(** The body [{"error": "index not found"}]. *)
Definition body_index_not_found : string :=
  "{" +:+ q +:+ "error" +:+ q +:+ ": " +:+ q +:+ "index not found" +:+ q +:+ "}".

(** The body [{"msg": "x"}]: a JSON object without an "error" field. *)
Definition body_without_error : string :=
  "{" +:+ q +:+ "msg" +:+ q +:+ ": " +:+ q +:+ "x" +:+ q +:+ "}".

(** A server that answers every request with the same status and body. *)
Definition simulated_server (status : Z) (body : string) : transport :=
  λ _ _, inl {| status_code := status; text := body |}.

(** A transport that fails every request with the same description. *)
Definition failing_transport (e : string) : transport := λ _ _, inr e.

(** [EndeeClient()] over a session without default headers. *)
Definition local_client : EndeeClient := __init__ ∅ None None None.

(** ** Truth values and the [with] statement *)

(** Truth value of a Python value. *)
#[global] Instance truthy_pyval : Truthy pyval :=
  λ v, match v with
       | PyNone => false
       | PyBool b => b
       | PyInt z => negb (z =? 0)
       | PyFloat f => negb (PrimFloat.eqb f 0)
       | PyStr s => truthy s
       | PyList l => match l with [] => false | _ :: _ => true end
       | PyDict d => truthy d
       end.

(** [with client: body].  [__enter__] returns [self], so the body works on
    the client itself; [__exit__] runs whether the body returns or raises, and
    a truthy value from it would suppress what the body raised (the result is
    then [None]). *)
Definition with_statement {A} (body : M A) : M (option A) :=
  _ ← __enter__;
  r ← attempt body;
  suppress ← __exit__;
  match r with
  | Return a => mret (Some a)
  | Raise e => if truthy suppress then mret None else raise e
  end.

(** The API calls among the operations of a script, in order. *)
Definition api_calls (ops : list op) : list api_call :=
  omap (λ o, match o with Api c => Some c | Close => None end) ops.

(** ** Arguments as objects

    The methods above take their arguments by value.  In Python a list or a
    dictionary is an object that the caller and the method share, and a
    method could change it under the caller.  This part follows the objects:
    a value is a scalar or a reference into a heap of lists and
    dictionaries, and each method that has a body is given by the effect on
    the heap of its statements up to [return self._request(...)], together
    with the object it passes as [json_data].  [_request] passes that object
    on to [session.request] and does nothing else with it.  The index name
    and the identifiers that go into the path are strings, which nothing can
    change. *)

Inductive oval :=
| ONone
| OBool (b : bool)
| OInt (z : Z)
| OFloat (f : float)
| OStr (s : string)
| ORef (a : nat).

Inductive object :=
| OList (items : list oval)
| ODict (items : gmap pykey oval).

(** A dictionary display [{...}] or a list display: a new object. *)
Definition new_object (o : object) (h : gmap nat object) : nat * gmap nat object :=
  let a := fresh (dom h) in (a, <[a := o]> h).

(** [d[key] = value] on the dictionary at [a]. *)
Definition setitem (a : nat) (key : pykey) (value : oval) (h : gmap nat object)
  : gmap nat object :=
  match h !! a with
  | Some (ODict items) => <[a := ODict (<[key := value]> items)]> h
  | _ => h
  end.

(** The truth value of [v], as [if v:] tests it. *)
Definition truth (h : gmap nat object) (v : oval) : bool :=
  match v with
  | ONone => false
  | OBool b => b
  | OInt z => negb (z =? 0)
  | OFloat f => negb (PrimFloat.eqb f 0)
  | OStr s => truthy s
  | ORef a =>
      match h !! a with
      | Some (OList items) => match items with [] => false | _ :: _ => true end
      | Some (ODict items) => truthy items
      | None => true
      end
  end.

Definition all_Some (m : gmap pykey (option pyval)) : option (gmap pykey pyval) :=
  if decide (map_Forall (λ _ o, is_Some o) m) then Some (omap id m) else None.

(** The value that an object has at a given moment, which is what is
    serialised when the object is the [json] argument of a request; [fuel]
    bounds the depth of nesting. *)
Fixpoint load (fuel : nat) (h : gmap nat object) (v : oval) : option pyval :=
  match v with
  | ONone => Some PyNone
  | OBool b => Some (PyBool b)
  | OInt z => Some (PyInt z)
  | OFloat f => Some (PyFloat f)
  | OStr s => Some (PyStr s)
  | ORef a =>
      match fuel with
      | O => None
      | S fuel =>
          match h !! a with
          | Some (OList items) => PyList <$> mapM (load fuel h) items
          | Some (ODict items) => PyDict <$> all_Some (load fuel h <$> items)
          | None => None
          end
      end
  end.

Module Objects.

Definition create_index (index_name dim space_type ef_construction m quant_type
    enable_sparse : oval) (h : gmap nat object) : oval * gmap nat object :=
  let '(data, h) :=
    new_object (ODict {[ KStr "index_name" := index_name;
                         KStr "dim" := dim;
                         KStr "space_type" := space_type;
                         KStr "ef_construction" := ef_construction;
                         KStr "m" := m;
                         KStr "quant_type" := quant_type;
                         KStr "enable_sparse" := enable_sparse ]}) h in
  (ORef data, h).

Definition insert_vectors (vectors : oval) (h : gmap nat object)
  : oval * gmap nat object :=
  (vectors, h).

Definition search_vectors (vector k ef_search filter_expr sparse_vector : oval)
    (h : gmap nat object) : oval * gmap nat object :=
  let '(data, h) :=
    new_object (ODict {[ KStr "vector" := vector; KStr "k" := k ]}) h in
  let h :=
    if match ef_search with ONone => false | _ => true end
    then setitem data (KStr "ef_search") ef_search h else h in
  let h :=
    if truth h filter_expr then setitem data (KStr "filter") filter_expr h else h in
  let h :=
    if truth h sparse_vector
    then setitem data (KStr "sparse_vector") sparse_vector h else h in
  (ORef data, h).

Definition get_vector (vector_ids : oval) (h : gmap nat object)
  : oval * gmap nat object :=
  let '(data, h) := new_object (ODict {[ KStr "ids" := vector_ids ]}) h in
  (ORef data, h).

Definition delete_vectors (vector_ids : oval) (h : gmap nat object)
  : oval * gmap nat object :=
  let '(data, h) := new_object (ODict {[ KStr "ids" := vector_ids ]}) h in
  (ORef data, h).

Definition update_filters (updates : oval) (h : gmap nat object)
  : oval * gmap nat object :=
  (updates, h).

(** A call of one of the methods that have a body, with its arguments. *)
Inductive call :=
| call_create_index (index_name dim space_type ef_construction m quant_type
    enable_sparse : oval)
| call_insert_vectors (vectors : oval)
| call_search_vectors (vector k ef_search filter_expr sparse_vector : oval)
| call_get_vector (vector_ids : oval)
| call_delete_vectors (vector_ids : oval)
| call_update_filters (updates : oval).

(** The object passed as [json_data], and the heap when it is passed. *)
Definition json_data (c : call) : gmap nat object → oval * gmap nat object :=
  match c with
  | call_create_index index_name dim space_type ef_construction m quant_type
      enable_sparse =>
      create_index index_name dim space_type ef_construction m quant_type enable_sparse
  | call_insert_vectors vectors => insert_vectors vectors
  | call_search_vectors vector k ef_search filter_expr sparse_vector =>
      search_vectors vector k ef_search filter_expr sparse_vector
  | call_get_vector vector_ids => get_vector vector_ids
  | call_delete_vectors vector_ids => delete_vectors vector_ids
  | call_update_filters updates => update_filters updates
  end.

End Objects.

(** ** A session that keeps cookies

    One of the things that happen behind [session.request], as requests does
    it: the session stores the cookies that a response sets, whatever its
    status, and returns them with the later requests they apply to.  Here
    for one host and cookies set for all its paths, without expiry.  A
    server is given by its answer to a call and to the cookies that come
    with it. *)






(** * Properties *)

(** ** Strings *)

Lemma append_nil_l (s : string) : "" +:+ s = s.
Proof. reflexivity. Qed.

Lemma append_cons (a : ascii) (s1 s2 : string) :
  String a s1 +:+ s2 = String a (s1 +:+ s2).
Proof. reflexivity. Qed.

(** [rstrip] removes trailing copies of the character and nothing else. *)
Lemma rstrip_decompose (c : ascii) (s : string) :
  ∃ n, s = rstrip c s +:+ repeat_char c n.
Proof.
  induction s as [|a s [n IH]]; simpl.
  - by exists O.
  - destruct (rstrip c s) as [|b r] eqn:E.
    + rewrite append_nil_l in IH.
      destruct (Ascii.eqb_spec a c) as [->|_].
      * exists (S n). rewrite append_nil_l. simpl. by rewrite <- IH.
      * exists n. rewrite append_cons, append_nil_l. by rewrite <- IH.
    + exists n. rewrite append_cons. by rewrite <- IH.
Qed.

(** What [rstrip] returns does not end in the character. *)
Lemma rstrip_last (c : ascii) (s : string) : last_char (rstrip c s) ≠ Some c.
Proof.
  induction s as [|a s IH]; simpl; [done|].
  destruct (rstrip c s) as [|b r] eqn:E.
  - destruct (Ascii.eqb_spec a c); simpl; congruence.
  - exact IH.
Qed.

(** A string that does not end in the character is left alone. *)
Lemma rstrip_id (c : ascii) (s : string) : last_char s ≠ Some c → rstrip c s = s.
Proof.
  induction s as [|a s IH]; simpl; [done|].
  destruct s as [|b r].
  - simpl. destruct (Ascii.eqb_spec a c); congruence.
  - intros H. rewrite (IH H). done.
Qed.

Lemma rstrip_idemp (c : ascii) (s : string) : rstrip c (rstrip c s) = rstrip c s.
Proof. apply rstrip_id, rstrip_last. Qed.

(** ** The decoder

    Every successful scan consumes input, and the fuel it needs is bounded by
    the input it consumes. *)

Lemma skip_ws_length (s : string) : (String.length (skip_ws s) ≤ String.length s)%nat.
Proof. induction s as [|c s IH]; simpl; [done|]. destruct (is_ws c); simpl; lia. Qed.

Lemma expect_length (c : ascii) (s r : string) :
  expect c s = Some r → String.length s = S (String.length r).
Proof. destruct s as [|a s]; simpl; [done|]. by destruct (Ascii.eqb a c); intros [= ->]. Qed.

Lemma strip_prefix_length (p s rest : string) :
  strip_prefix p s = Some rest →
  (String.length rest + String.length p = String.length s)%nat.
Proof.
  revert s. induction p as [|a p IH]; intros [|b s] H; simpl in *; simplify_eq; try done.
  destruct (Ascii.eqb a b); [|done]. apply IH in H. lia.
Qed.

Lemma span_digits_length (acc n : Z) (s : string) (a k : Z) (rest : string) :
  span_digits acc n s = (a, k, rest) →
  Z.of_nat (String.length rest) + (k - n) = Z.of_nat (String.length s).
Proof.
  revert acc n. induction s as [|c s IH]; intros acc n H; cbn [span_digits] in H.
  - simplify_eq. lia.
  - cbn [String.length]. destruct (digit_of c).
    + apply IH in H. lia.
    + simplify_eq. cbn [String.length]. lia.
Qed.

Lemma scanstring_length (s str rest : string) :
  scanstring s = Some (str, rest) → (String.length rest < String.length s)%nat.
Proof.
  remember (String.length s) as n eqn:Hn.
  assert (String.length s ≤ n)%nat as Hle by lia. clear Hn.
  revert s str rest Hle. induction n as [|n IH]; intros s str rest Hle H.
  - destruct s; simpl in *; [done|lia].
  - destruct s as [|c r]; [done|]. cbn [scanstring] in H. cbn [String.length] in Hle.
    destruct (Ascii.eqb c dquote); [simplify_eq; lia|].
    destruct (Ascii.eqb c backslash).
    + destruct r as [|e r1]; [done|]. destruct (Ascii.eqb e "u").
      * destruct r1 as [|h1 [|h2 [|h3 [|h4 r2]]]]; try done.
        destruct (hex4 h1 h2 h3 h4) as [uni|]; [|done]. cbn [mbind option_bind] in H.
        cbn [String.length] in Hle.
        assert (('(str, rest) ← scanstring r2; Some (utf8_encode uni str, rest))
                = Some (str, rest) → (String.length rest < S n)%nat) as Hplain.
        { intros H'. destruct (scanstring r2) as [[str0 rest0]|] eqn:E; [|done].
          simpl in H'. simplify_eq. apply IH in E; lia. }
        destruct ((55296 <=? uni) && (uni <=? 56319)); [|by apply Hplain].
        destruct r2 as [|b1 [|b2 r3]]; try by apply Hplain.
        destruct (Ascii.eqb b1 backslash && Ascii.eqb b2 "u"); [|by apply Hplain].
        destruct r3 as [|l1 [|l2 [|l3 [|l4 r4]]]]; try done.
        destruct (hex4 l1 l2 l3 l4) as [uni2|]; [|done]. cbn [mbind option_bind] in H.
        destruct ((56320 <=? uni2) && (uni2 <=? 57343)); [|by apply Hplain].
        destruct (scanstring r4) as [[str0 rest0]|] eqn:E; [|done].
        simpl in H. simplify_eq. cbn [String.length] in Hle. apply IH in E; lia.
      * destruct (unescape e) as [ch|]; [|done]. cbn [mbind option_bind] in H.
        destruct (scanstring r1) as [[str0 rest0]|] eqn:E; [|done].
        simpl in H. simplify_eq. cbn [String.length] in Hle. apply IH in E; lia.
    + destruct (N_of_ascii c <? 32)%N; [done|].
      destruct (scanstring r) as [[str0 rest0]|] eqn:E; [|done].
      simpl in H. simplify_eq. apply IH in E; lia.
Qed.

Lemma match_integer_length (s : string) (neg : bool) (i : Z) (rest : string) :
  match_integer s = Some (neg, i, rest) → (String.length rest < String.length s)%nat.
Proof.
  unfold match_integer. intros H.
  destruct (expect "-" s) as [r|] eqn:Eneg.
  - apply expect_length in Eneg. destruct (expect "0" r) as [r'|] eqn:E.
    + simplify_eq. apply expect_length in E. lia.
    + destruct (span_digits 0 0 r) as [[i' n] r'] eqn:Ed.
      apply span_digits_length in Ed. destruct (0 <? n) eqn:En; simplify_eq. lia.
  - destruct (expect "0" s) as [r'|] eqn:E.
    + simplify_eq. apply expect_length in E. lia.
    + destruct (span_digits 0 0 s) as [[i' n] r'] eqn:Ed.
      apply span_digits_length in Ed. destruct (0 <? n) eqn:En; simplify_eq. lia.
Qed.

Lemma match_frac_length (s : string) (frac : option (Z * Z)) (rest : string) :
  match_frac s = (frac, rest) → (String.length rest ≤ String.length s)%nat.
Proof.
  unfold match_frac. intros H. destruct (expect "." s) as [r|] eqn:E; [|by simplify_eq].
  destruct (span_digits 0 0 r) as [[f n] r'] eqn:Ed.
  apply span_digits_length in Ed. apply expect_length in E.
  destruct (0 <? n) eqn:En; simplify_eq; lia.
Qed.

Lemma match_exp_length (s : string) (exp : option Z) (rest : string) :
  match_exp s = (exp, rest) → (String.length rest ≤ String.length s)%nat.
Proof.
  unfold match_exp. intros H.
  destruct (match expect "e" s with Some r => Some r | None => expect "E" s end)
    as [r|] eqn:E; [|by simplify_eq].
  assert (String.length r < String.length s)%nat as Hr.
  { destruct (expect "e" s) eqn:E1; simplify_eq.
    - apply expect_length in E1. lia.
    - apply expect_length in E. lia. }
  destruct (match expect "-" r, expect "+" r with
            | Some t, _ => (true, t)
            | None, Some t => (false, t)
            | None, None => (false, r)
            end) as [eneg r'] eqn:Esign.
  assert (String.length r' ≤ String.length r)%nat as Hr'.
  { destruct (expect "-" r) eqn:E1, (expect "+" r) eqn:E2; simplify_eq;
      try apply expect_length in E1; try apply expect_length in E2; lia. }
  destruct (span_digits 0 0 r') as [[x n] r''] eqn:Ed.
  apply span_digits_length in Ed.
  destruct (0 <? n) eqn:En; simplify_eq; lia.
Qed.

Lemma match_number_length (s : string) (v : pyval) (rest : string) :
  match_number s = Some (v, rest) → (String.length rest < String.length s)%nat.
Proof.
  unfold match_number. intros H.
  apply bind_Some in H as ([[neg i] r1] & Hi%match_integer_length & H).
  destruct (match_frac r1) as [frac r2] eqn:Ef. apply match_frac_length in Ef.
  destruct (match_exp r2) as [exp r3] eqn:Ee. apply match_exp_length in Ee.
  destruct frac as [[f n]|], exp as [x|]; simpl in H; simplify_eq; lia.
Qed.

Lemma scan_atom_length (s : string) (v : pyval) (rest : string) :
  scan_atom s = Some (v, rest) → (String.length rest < String.length s)%nat.
Proof.
  unfold scan_atom. intros H.
  repeat match type of H with
         | context [strip_prefix ?p s] =>
             let E := fresh "E" in
             destruct (strip_prefix p s) eqn:E;
             [apply strip_prefix_length in E; simpl in E; simplify_eq; lia|]
         | context [match_number s] =>
             let E := fresh "E" in
             destruct (match_number s) as [[? ?]|] eqn:E;
             [apply match_number_length in E; simplify_eq; lia|]
         end.
  done.
Qed.

Lemma scan_once_S (fuel : nat) (s : string) :
  scan_once (S fuel) s =
  match expect dquote s, expect "{" s, expect "[" s with
  | Some r, _, _ => '(str, rest) ← scanstring r; Some (PyStr str, rest)
  | None, Some r, _ =>
      match expect "}" (skip_ws r) with
      | Some rest => Some (PyDict ∅, rest)
      | None => JSONObject fuel (skip_ws r) ∅
      end
  | None, None, Some r =>
      match expect "]" (skip_ws r) with
      | Some rest => Some (PyList [], rest)
      | None => JSONArray fuel (skip_ws r) []
      end
  | None, None, None => scan_atom s
  end.
Proof. reflexivity. Qed.

Lemma JSONObject_S (fuel : nat) (s : string) (pairs : gmap pykey pyval) :
  JSONObject (S fuel) s pairs =
  (r ← expect dquote s;
   '(key, r1) ← scanstring r;
   r2 ← expect ":" (skip_ws r1);
   '(value, r3) ← scan_once fuel (skip_ws r2);
   match expect "}" (skip_ws r3), expect "," (skip_ws r3) with
   | Some rest, _ => Some (PyDict (<[KStr key := value]> pairs), rest)
   | None, Some r4 => JSONObject fuel (skip_ws r4) (<[KStr key := value]> pairs)
   | None, None => None
   end).
Proof. reflexivity. Qed.

Lemma JSONArray_S (fuel : nat) (s : string) (values : list pyval) :
  JSONArray (S fuel) s values =
  ('(value, r1) ← scan_once fuel s;
   match expect "]" (skip_ws r1), expect "," (skip_ws r1) with
   | Some rest, _ => Some (PyList (values ++ [value]), rest)
   | None, Some r2 => JSONArray fuel (skip_ws r2) (values ++ [value])
   | None, None => None
   end).
Proof. reflexivity. Qed.

Lemma scan_fuel (n : nat) :
  (∀ s v rest, scan_once n s = Some (v, rest) →
     (String.length rest < String.length s)%nat
     ∧ ∀ m, (2 * (String.length s - String.length rest) - 1 ≤ m)%nat →
            scan_once m s = Some (v, rest))
  ∧ (∀ s pairs v rest, JSONObject n s pairs = Some (v, rest) →
     (String.length rest + 2 ≤ String.length s)%nat
     ∧ ∀ m, (2 * (String.length s - String.length rest) - 2 ≤ m)%nat →
            JSONObject m s pairs = Some (v, rest))
  ∧ (∀ s values v rest, JSONArray n s values = Some (v, rest) →
     (String.length rest + 2 ≤ String.length s)%nat
     ∧ ∀ m, (2 * (String.length s - String.length rest) - 2 ≤ m)%nat →
            JSONArray m s values = Some (v, rest)).
Proof.
  induction n as [|n (IHs & IHo & IHa)]; [by repeat split|]. split; [|split].
  - intros s v rest H. rewrite scan_once_S in H.
    destruct (expect dquote s) as [r|] eqn:Eq.
    { pose proof (expect_length _ _ _ Eq).
      destruct (scanstring r) as [[str rest']|] eqn:Es; [|done].
      cbn [mbind option_bind] in H. simplify_eq.
      pose proof (scanstring_length _ _ _ Es). split; [lia|].
      intros [|m] Hm; [lia|]. by rewrite scan_once_S, Eq, Es. }
    destruct (expect "{" s) as [r|] eqn:Eo.
    { pose proof (expect_length _ _ _ Eo). pose proof (skip_ws_length r).
      destruct (expect "}" (skip_ws r)) as [rest'|] eqn:Ec.
      - pose proof (expect_length _ _ _ Ec). simplify_eq. split; [lia|].
        intros [|m] Hm; [lia|]. by rewrite scan_once_S, Eq, Eo, Ec.
      - apply IHo in H as [Hl Hfuel]. split; [lia|].
        intros [|m] Hm; [lia|]. rewrite scan_once_S, Eq, Eo, Ec. apply Hfuel. lia. }
    destruct (expect "[" s) as [r|] eqn:Ea.
    { pose proof (expect_length _ _ _ Ea). pose proof (skip_ws_length r).
      destruct (expect "]" (skip_ws r)) as [rest'|] eqn:Ec.
      - pose proof (expect_length _ _ _ Ec). simplify_eq. split; [lia|].
        intros [|m] Hm; [lia|]. by rewrite scan_once_S, Eq, Eo, Ea, Ec.
      - apply IHa in H as [Hl Hfuel]. split; [lia|].
        intros [|m] Hm; [lia|]. rewrite scan_once_S, Eq, Eo, Ea, Ec. apply Hfuel. lia. }
    pose proof (scan_atom_length _ _ _ H). split; [lia|].
    intros [|m] Hm; [lia|]. by rewrite scan_once_S, Eq, Eo, Ea.
  - intros s pairs v rest H. rewrite JSONObject_S in H.
    destruct (expect dquote s) as [r|] eqn:E1; [|done]. cbn [mbind option_bind] in H.
    destruct (scanstring r) as [[key r1]|] eqn:E2; [|done]. cbn [mbind option_bind] in H.
    destruct (expect ":" (skip_ws r1)) as [r2|] eqn:E3; [|done].
    cbn [mbind option_bind] in H.
    destruct (scan_once n (skip_ws r2)) as [[value r3]|] eqn:E4; [|done].
    cbn [mbind option_bind] in H.
    pose proof (expect_length _ _ _ E1). pose proof (scanstring_length _ _ _ E2).
    pose proof (expect_length _ _ _ E3). pose proof (skip_ws_length r1).
    pose proof (skip_ws_length r2). pose proof (skip_ws_length r3).
    apply IHs in E4 as [Hl4 Hfuel4].
    assert (∀ m, (2 * (String.length s - String.length rest) - 2 ≤ S m)%nat →
                 (String.length rest ≤ String.length r3)%nat →
                 JSONObject (S m) s pairs
                 = match expect "}" (skip_ws r3), expect "," (skip_ws r3) with
                   | Some rest, _ => Some (PyDict (<[KStr key := value]> pairs), rest)
                   | None, Some r4 =>
                       JSONObject m (skip_ws r4) (<[KStr key := value]> pairs)
                   | None, None => None
                   end) as Hstep.
    { intros m Hm Hrest. rewrite JSONObject_S, E1. cbn [mbind option_bind].
      rewrite E2. cbn [mbind option_bind]. rewrite E3. cbn [mbind option_bind].
      rewrite Hfuel4 by lia. done. }
    destruct (expect "}" (skip_ws r3)) as [rest'|] eqn:E5.
    + pose proof (expect_length _ _ _ E5). simplify_eq. split; [lia|].
      intros [|m] Hm; [lia|]. rewrite Hstep by lia. done.
    + destruct (expect "," (skip_ws r3)) as [r4|] eqn:E6; [|done].
      pose proof (expect_length _ _ _ E6). pose proof (skip_ws_length r4).
      apply IHo in H as [Hl Hfuel]. split; [lia|].
      intros [|m] Hm; [lia|]. rewrite Hstep by lia. apply Hfuel. lia.
  - intros s values v rest H. rewrite JSONArray_S in H.
    destruct (scan_once n s) as [[value r1]|] eqn:E1; [|done].
    cbn [mbind option_bind] in H. pose proof (skip_ws_length r1).
    apply IHs in E1 as [Hl1 Hfuel1].
    assert (∀ m, (2 * (String.length s - String.length rest) - 2 ≤ S m)%nat →
                 (String.length rest < String.length r1)%nat →
                 JSONArray (S m) s values
                 = match expect "]" (skip_ws r1), expect "," (skip_ws r1) with
                   | Some rest, _ => Some (PyList (values ++ [value]), rest)
                   | None, Some r2 => JSONArray m (skip_ws r2) (values ++ [value])
                   | None, None => None
                   end) as Hstep.
    { intros m Hm Hrest. rewrite JSONArray_S, Hfuel1 by lia. done. }
    destruct (expect "]" (skip_ws r1)) as [rest'|] eqn:E2.
    + pose proof (expect_length _ _ _ E2). simplify_eq. split; [lia|].
      intros [|m] Hm; [lia|]. rewrite Hstep by lia. done.
    + destruct (expect "," (skip_ws r1)) as [r2|] eqn:E3; [|done].
      pose proof (expect_length _ _ _ E3). pose proof (skip_ws_length r2).
      apply IHa in H as [Hl Hfuel]. split; [lia|].
      intros [|m] Hm; [lia|]. rewrite Hstep by lia. apply Hfuel. lia.
Qed.

(** Whatever fuel decodes a document, the fuel of [json_loads] decodes it to
    the same value: [json_loads] never fails for want of fuel. *)
Lemma json_loads_fuel (fuel : nat) (s : string) (v : pyval) (rest : string) :
  scan_once fuel (skip_ws s) = Some (v, rest) →
  scan_once (2 * String.length s + 2) (skip_ws s) = Some (v, rest).
Proof.
  intros H. destruct (scan_fuel fuel) as (Hs & _ & _).
  apply Hs in H as [Hl Hfuel]. apply Hfuel.
  pose proof (skip_ws_length s). lia.
Qed.

(** ** Running programs *)

Lemma run_bind {A B} (t : transport) (p : io A) (f : A → io B) log :
  run t log (io_bind p f) = run t (run t log p).2 (f (run t log p).1).
Proof.
  revert log. induction p as [a|req k IH]; intros log; simpl; [done|].
  apply IH.
Qed.

(** A run only ever extends the log. *)
Lemma run_log_prefix {A} (t : transport) (p : io A) log :
  ∃ new, (run t log p).2 = log ++ new.
Proof.
  revert log. induction p as [a|req k IH]; intros log; simpl.
  - exists []. by rewrite app_nil_r.
  - destruct (IH (t log req) (log ++ [req])) as [new ->].
    exists (req :: new). by rewrite <- app_assoc.
Qed.

(** The decoder raises nothing but [JSONDecodeError]. *)
Lemma json_loads_raise (s : string) (e : exn) :
  json_loads s = Raise e → e = JSONDecodeError.
Proof.
  unfold json_loads.
  destruct (scan_once _ _) as [[obj rest]|]; [destruct (skip_ws rest)|]; congruence.
Qed.

Lemma Response_json_raise (response : Response) (e : exn) :
  Response_json response = Raise e → e = JSONDecodeError.
Proof. apply json_loads_raise. Qed.

(** An empty body is not a JSON document. *)
Lemma json_loads_empty : json_loads "" = Raise JSONDecodeError.
Proof. reflexivity. Qed.

Ltac unfold_request :=
  unfold _request, request_of, outcome, final_self, sent,
    mbind, M_bind, mret, M_ret, get_self, try_except, Session_request, raise, lift;
  cbn [io_bind run fst snd].

Section Request.
Context (t : transport) (log : list PreparedRequest) (self : EndeeClient).
Context (method endpoint : string) (json_data params : option pyval).
Context (hdrs : option (gmap string string)).

Let req := request_of self method endpoint json_data params hdrs.
Let r := run t log (_request method endpoint json_data params hdrs self).

(** One request goes out, whatever comes back. *)
Lemma request_sent : sent r = log ++ [req].
Proof.
  subst r req. unfold_request.
  destruct (t log _) as [response|e]; cbn [io_bind run fst snd]; [|done].
  destruct (status_code response >=? 400); [done|].
  destruct (truthy (text response)); [|done].
  by destruct (Response_json response) as [v|[]].
Qed.

(** [self] is left as it was. *)
Lemma request_self : final_self r = self.
Proof.
  subst r req. unfold_request.
  destruct (t log _) as [response|e]; cbn [io_bind run fst snd]; [|done].
  destruct (status_code response >=? 400); [done|].
  destruct (truthy (text response)); [|done].
  by destruct (Response_json response) as [v|[]].
Qed.

(** A transport failure becomes an [EndeeConnectionError]. *)
Lemma request_failure e :
  t log req = inr e →
  outcome r = Raise (EndeeConnectionError ("Failed to connect to Endee server: " +:+ e)).
Proof. subst r req. unfold_request. by intros ->. Qed.

(** A response with a status of 400 or more becomes an [EndeeAPIError]. *)
Lemma request_error response :
  t log req = inl response →
  400 ≤ status_code response →
  outcome r =
    Raise (EndeeAPIError
             match (error_data ← Response_json response;
                    found ← py_contains "error" error_data;
                    if found : bool then py_getitem error_data "error"
                    else Return (PyStr ("API request failed with status "
                                        +:+ pretty (status_code response)))) with
             | Return msg => msg
             | Raise _ =>
                 if truthy (text response) then PyStr (text response)
                 else PyStr ("API request failed with status "
                             +:+ pretty (status_code response))
             end
             (status_code response) (text response)).
Proof.
  subst r req. unfold_request. intros -> Hs. cbn [io_bind run fst snd].
  replace (status_code response >=? 400) with true by (symmetry; lia).
  done.
Qed.

(** A response with a status below 400 is decoded, an empty one gives [{}]. *)
Lemma request_success response :
  t log req = inl response →
  status_code response < 400 →
  outcome r = if truthy (text response) then Response_json response
              else Return (PyDict ∅).
Proof.
  subst r req. unfold_request. intros -> Hs. cbn [io_bind run fst snd].
  replace (status_code response >=? 400) with false by (symmetry; lia).
  destruct (truthy (text response)); [|done].
  destruct (Response_json response) as [v|e] eqn:E; [done|].
  by rewrite (Response_json_raise _ _ E).
Qed.
End Request.

(** Every method of the API is one [_request] with the documented verb and
    path, the path parameters inserted as they are, and neither query
    parameters nor headers of its own. *)
Lemma invoke_request (c : api_call) :
  ∃ json_data,
    invoke c = _request (Spec.documented_method c) (Spec.documented_path id c)
                 json_data None None.
Proof. destruct c; eexists; reflexivity. Qed.

(** ** Configuration *)

#[global] Instance same_config_equiv : Equivalence same_config.
Proof.
  split.
  - by intros a.
  - intros a b (? & ? & ? & ?). by repeat split.
  - intros a b c (? & ? & ? & ?) (? & ? & ? & ?). repeat split; congruence.
Qed.

(** What [_request] sends and returns depends on the configuration only. *)
Lemma request_same_config (a b : EndeeClient) (t : transport) log method endpoint
    json_data params hdrs :
  same_config a b →
  outcome (run t log (_request method endpoint json_data params hdrs a))
  = outcome (run t log (_request method endpoint json_data params hdrs b))
  ∧ sent (run t log (_request method endpoint json_data params hdrs a))
    = sent (run t log (_request method endpoint json_data params hdrs b)).
Proof.
  intros (Hu & _ & Ht & Hh).
  rewrite !request_sent. unfold_request. rewrite Hu, Ht, Hh. split; [|done].
  destruct (t log _) as [response|e]; cbn [io_bind run fst snd]; [|done].
  destruct (status_code response >=? 400); [done|].
  destruct (truthy (text response)); [|done].
  by destruct (Response_json response) as [v|[]].
Qed.

Lemma invoke_same_config (a b : EndeeClient) (t : transport) log (c : api_call) :
  same_config a b →
  outcome (run t log (invoke c a)) = outcome (run t log (invoke c b))
  ∧ sent (run t log (invoke c a)) = sent (run t log (invoke c b)).
Proof.
  destruct (invoke_request c) as [json_data ->]. apply request_same_config.
Qed.

Lemma invoke_self (c : api_call) (self : EndeeClient) (t : transport) log :
  final_self (run t log (invoke c self)) = self.
Proof. destruct (invoke_request c) as [json_data ->]. apply request_self. Qed.

Lemma invoke_sent (c : api_call) (self : EndeeClient) (t : transport) log :
  ∃ json_data,
    sent (run t log (invoke c self))
    = log ++ [request_of self (Spec.documented_method c) (Spec.documented_path id c)
                json_data None None].
Proof.
  destruct (invoke_request c) as [json_data ->]. exists json_data. apply request_sent.
Qed.

Lemma run_close (self : EndeeClient) (t : transport) log :
  run t log (close self) = (Return PyNone, closed_client self, log).
Proof. reflexivity. Qed.

Lemma closed_same_config (self : EndeeClient) : same_config self (closed_client self).
Proof. by repeat split. Qed.

Lemma perform_same_config (o : op) (self : EndeeClient) (t : transport) log :
  same_config self (final_self (run t log (perform o self))).
Proof.
  destruct o as [c|]; simpl.
  - by rewrite invoke_self.
  - apply closed_same_config.
Qed.

(** ** Scripts *)

Lemma run_script_cons (o : op) (ops : list op) (self : EndeeClient) (t : transport) log :
  let x := run t log (perform o self) in
  let y := run t (sent x) (script ops (final_self x)) in
  run t log (script (o :: ops) self)
  = (rs ← outcome y; Return (outcome x :: rs), final_self y, sent y).
Proof.
  cbn zeta. cbn [script]. unfold mbind at 1, M_bind, attempt.
  rewrite !run_bind. unfold outcome, final_self, sent.
  destruct (run t log (perform o self)) as [[r self'] log']. cbn [fst snd run].
  unfold mbind at 1, M_bind. rewrite run_bind.
  destruct (run t log' (script ops self')) as [[[rs|e] self''] log'']; done.
Qed.


(** The requests of a script are those of its API calls, each one built from
    the configuration of the client the script started with. *)
Lemma script_sent (ops : list op) (self : EndeeClient) (t : transport) log :
  ∃ new,
    sent (run t log (script ops self)) = log ++ new
    ∧ Forall (λ r, ∃ c json_data,
                r = request_of self (Spec.documented_method c)
                      (Spec.documented_path id c) json_data None None) new.
Proof.
  revert self log. induction ops as [|o ops IH]; intros self log.
  - exists []. split; [by rewrite app_nil_r|constructor].
  - rewrite run_script_cons. cbn [sent fst snd].
    pose proof (perform_same_config o self t log) as Hc.
    destruct (IH (final_self (run t log (perform o self)))
                 (sent (run t log (perform o self)))) as (new & -> & Hnew).
    assert (Forall (λ r, ∃ c json_data,
                r = request_of self (Spec.documented_method c)
                      (Spec.documented_path id c) json_data None None) new) as Hnew'.
    { eapply Forall_impl; [exact Hnew|]. intros r (c & j & ->). exists c, j.
      destruct Hc as (Hu & _ & Ht & Hh). unfold request_of. by rewrite Hu, Ht, Hh. }
    destruct o as [c|]; cbn [perform].
    + destruct (invoke_sent c self t log) as [j ->].
      eexists (_ :: new). rewrite <- app_assoc. split; [done|].
      constructor; [by exists c, j|done].
    + rewrite run_close. exists new. by split.
Qed.

(** ** Truth values *)

Lemma truthy_string_nonempty (s : string) :
  truthy s = if decide (s = "") then false else true.
Proof. destruct s; by case_decide. Qed.

Lemma truthy_gmap_nonempty `{Countable K} {V} (d : gmap K V) :
  truthy d = if decide (d = ∅) then false else true.
Proof.
  unfold truthy, truthy_gmap. case_decide as E.
  - by rewrite bool_decide_false by (by intros ?).
  - by rewrite bool_decide_true.
Qed.

(** ** Payloads without [None] *)

Lemma singleton_no_None (key : pykey) (v : pyval) :
  v ≠ PyNone → ∀ k, ({[key := v]} : gmap pykey pyval) !! k ≠ Some PyNone.
Proof. intros Hv k [_ ?]%lookup_singleton_Some. congruence. Qed.

Lemma insert_no_None (key : pykey) (v : pyval) (m : gmap pykey pyval) :
  v ≠ PyNone → (∀ k, m !! k ≠ Some PyNone) → ∀ k, <[key := v]> m !! k ≠ Some PyNone.
Proof.
  intros Hv Hm k [[_ ?]|[_ ?]]%lookup_insert_Some; [congruence|]. by eapply Hm.
Qed.

(** ** Objects *)

#[local] Instance KInt_inj : Inj (=) (=) KInt.
Proof. by intros x y [= ->]. Qed.

Ltac lookup_key :=
  repeat first [ rewrite lookup_insert_eq
               | rewrite lookup_insert_ne by done
               | rewrite lookup_singleton_eq
               | rewrite lookup_singleton_ne by done ].

(** What was in the heap before a new object is made is not the new object. *)
Lemma fresh_ne (h : gmap nat object) (a : nat) (x : object) :
  h !! a = Some x → a ≠ fresh (dom h).
Proof. intros Ha ->. apply (is_fresh (dom h)). apply elem_of_dom. by eexists. Qed.


Lemma setitem_dict (a : nat) (key : pykey) (v : oval) (items : gmap pykey oval)
    (h : gmap nat object) :
  setitem a key v (<[a := ODict items]> h) = <[a := ODict (<[key := v]> items)]> h.
Proof. unfold setitem. by rewrite lookup_insert_eq, insert_insert_eq. Qed.


Lemma all_Some_lookup (m : gmap pykey (option pyval)) (D : gmap pykey pyval) :
  (∀ key, m !! key = Some <$> D !! key) → all_Some m = Some D.
Proof.
  intros H. unfold all_Some. case_decide as Hall.
  - f_equal. apply map_eq. intros key. rewrite lookup_omap, H.
    by destruct (D !! key).
  - destruct Hall. intros key o Ho. rewrite H in Ho.
    destruct (D !! key); simplify_eq/=. by eexists.
Qed.

Lemma load_dict (fuel : nat) (h : gmap nat object) (a : nat)
    (items : gmap pykey oval) (D : gmap pykey pyval) :
  h !! a = Some (ODict items) →
  (∀ key, load fuel h <$> items !! key = Some <$> D !! key) →
  load (S fuel) h (ORef a) = Some (PyDict D).
Proof.
  intros Ha HD. cbn [load]. rewrite Ha.
  rewrite (all_Some_lookup _ D); [done|]. intros key. by rewrite lookup_fmap.
Qed.

Lemma load_floats (fuel : nat) (h : gmap nat object) (a : nat) (l : list float) :
  h !! a = Some (OList (OFloat <$> l)) →
  load (S fuel) h (ORef a) = Some (PyList (PyFloat <$> l)).
Proof.
  intros Ha. cbn. rewrite Ha. cbn.
  assert (mapM (load fuel h) (OFloat <$> l) = Some (PyFloat <$> l)) as ->; [|done].
  apply mapM_Some. clear Ha.
  induction l as [|x l IH]; cbn; constructor; [by destruct fuel|done].
Qed.

Lemma load_strings (fuel : nat) (h : gmap nat object) (a : nat) (l : list string) :
  h !! a = Some (OList (OStr <$> l)) →
  load (S fuel) h (ORef a) = Some (PyList (PyStr <$> l)).
Proof.
  intros Ha. cbn. rewrite Ha. cbn.
  assert (mapM (load fuel h) (OStr <$> l) = Some (PyStr <$> l)) as ->; [|done].
  apply mapM_Some. clear Ha.
  induction l as [|x l IH]; cbn; constructor; [by destruct fuel|done].
Qed.

Lemma load_sparse (fuel : nat) (h : gmap nat object) (a : nat) (d : gmap Z float) :
  h !! a = Some (ODict (kmap KInt (OFloat <$> d))) →
  load (S fuel) h (ORef a) = Some (PyDict (kmap KInt (PyFloat <$> d))).
Proof.
  intros Ha. eapply load_dict; [exact Ha|]. intros key. destruct key as [s|z].
  - assert (∀ {V} (m : gmap Z V), kmap (M2:=gmap pykey) KInt m !! KStr s = None) as E.
    { intros V m. apply (lookup_kmap_None KInt). by intros j [=]. }
    by rewrite !E.
  - rewrite (lookup_kmap KInt (OFloat <$> d)), (lookup_kmap KInt (PyFloat <$> d)).
    rewrite !lookup_fmap. destruct (d !! z); [|done]. by destruct fuel.
Qed.

Lemma truth_sparse (h : gmap nat object) (a : nat) (d : gmap Z float) :
  h !! a = Some (ODict (kmap KInt (OFloat <$> d))) →
  truth h (ORef a) = truthy d.
Proof.
  intros Ha. cbn. rewrite Ha. unfold truthy, truthy_gmap.
  apply bool_decide_ext. by rewrite (kmap_empty_iff KInt), fmap_empty_iff.
Qed.

(** The two embeddings of [create_index] agree: the object that the method
    passes reads, when it is passed, as the body of the method by value. *)
Lemma create_index_data (h : gmap nat object) (index_name : string) (dim : Z)
    (space_type : option string) (ef_construction m : option Z)
    (quant_type : option string) (enable_sparse : option bool)
    (self : EndeeClient) (t : transport) :
  let r := Objects.create_index (OStr index_name) (OInt dim)
             (OStr (default "l2" space_type)) (OInt (default 200 ef_construction))
             (OInt (default 16 m)) (OStr (default "none" quant_type))
             (OBool (default false enable_sparse)) h in
  req_json <$> sent (run t [] (create_index index_name dim space_type ef_construction
                                 m quant_type enable_sparse self))
  = [load 1 r.2 r.1].
Proof.
  intros r. subst r. unfold create_index. rewrite request_sent.
  unfold Objects.create_index, new_object. set (a := fresh (dom h)).
  cbn [app fmap list_fmap req_json request_of fst snd]. do 2 f_equal. symmetry.
  eapply load_dict; [apply lookup_insert_eq|]. intros key.
  repeat match goal with
         | |- context [<[?k := _]> _ !! key] =>
             destruct (decide (key = k)) as [->|]; [by lookup_key|]; lookup_key
         | |- context [{[?k := _]} !! key] =>
             destruct (decide (key = k)) as [->|]; [by lookup_key|]; lookup_key
         end.
  done.
Qed.

(** The two embeddings of [search_vectors] agree, for a query vector and a
    sparse vector that are objects of the caller. *)
Lemma search_vectors_data (h : gmap nat object) (index_name : string)
    (vector : list float) (k ef_search : option Z) (filter_expr : option string)
    (sparse_vector : option (gmap Z float)) (a_vector : nat) (o_sparse : oval)
    (self : EndeeClient) (t : transport) :
  h !! a_vector = Some (OList (OFloat <$> vector)) →
  match sparse_vector with
  | None => o_sparse = ONone
  | Some d => ∃ a, o_sparse = ORef a ∧ h !! a = Some (ODict (kmap KInt (OFloat <$> d)))
  end →
  let r := Objects.search_vectors (ORef a_vector) (OInt (default 10 k))
             (from_option OInt ONone ef_search) (from_option OStr ONone filter_expr)
             o_sparse h in
  req_json <$> sent (run t [] (search_vectors index_name vector k ef_search
                                 filter_expr sparse_vector self))
  = [load 2 r.2 r.1].
Proof.
  intros Hv Hs r. subst r. unfold search_vectors. rewrite request_sent.
  unfold Objects.search_vectors, new_object. set (a := fresh (dom h)).
  assert (∀ x o, h !! x = Some o → x ≠ a) as Hfresh by apply fresh_ne.
  cbn [app fmap list_fmap req_json request_of fst snd].
  assert (∀ items, <[a := ODict items]> h !! a_vector = Some (OList (OFloat <$> vector)))
    as Hv'.
  { intros items. rewrite lookup_insert_ne; [done|]. intros E. by apply (Hfresh _ _ Hv). }
  assert (∀ items D,
            (∀ key, load 1 (<[a := ODict items]> h) <$> items !! key = Some <$> D !! key) →
            [Some (PyDict D)] = [load 2 (<[a := ODict items]> h) (ORef a)]) as Hload.
  { intros items D HD. by rewrite (load_dict 1 _ a items D (lookup_insert_eq _ _ _) HD). }
  destruct ef_search as [ef|], filter_expr as [[|c f]|];
    cbn [from_option truthy truthy_option truthy_string truth to_py to_py_option];
    rewrite ?setitem_dict.
  all: try rewrite (bool_decide_true (Some _ ≠ None)) by done.
  all: try rewrite (bool_decide_false (None ≠ None)) by (intros H'; done).
  all: destruct sparse_vector as [d|];
    [destruct Hs as (x & -> & Hx);
     rewrite (truth_sparse _ x d)
       by (rewrite lookup_insert_ne; [done|]; intros E; by apply (Hfresh _ _ Hx));
     cbn [truthy truthy_option]; destruct (truthy d) eqn:Etruthy;
     rewrite ?setitem_dict
    |subst o_sparse; cbn [truthy truthy_option truth]].
  all: apply Hload; intros key.
  all: destruct (decide (key = KStr "vector")) as [->|];
    [lookup_key; cbn [fmap option_fmap option_map];
     by rewrite (load_floats 0 _ a_vector vector (Hv' _))|].
  all: destruct (decide (key = KStr "sparse_vector")) as [->|];
    [lookup_key; cbn [fmap option_fmap option_map];
     try (rewrite (load_sparse 0 _ x d);
          [done|rewrite lookup_insert_ne; [done|]; intros E; by apply (Hfresh _ _ Hx)]);
     done|].
  all: destruct (decide (key = KStr "k")) as [->|]; [by lookup_key|].
  all: destruct (decide (key = KStr "ef_search")) as [->|]; [by lookup_key|].
  all: destruct (decide (key = KStr "filter")) as [->|]; [by lookup_key|].
  all: by lookup_key.
Qed.

(** The two embeddings of [get_vector] and of [delete_vectors] agree, for a
    list of identifiers that is an object of the caller. *)
Lemma get_vector_data (h : gmap nat object) (index_name : string)
    (vector_ids : list string) (a_ids : nat) (self : EndeeClient) (t : transport) :
  h !! a_ids = Some (OList (OStr <$> vector_ids)) →
  let r := Objects.get_vector (ORef a_ids) h in
  Objects.delete_vectors (ORef a_ids) h = r
  ∧ req_json <$> sent (run t [] (get_vector index_name vector_ids self))
    = [load 2 r.2 r.1]
  ∧ req_json <$> sent (run t [] (delete_vectors index_name vector_ids self))
    = [load 2 r.2 r.1].
Proof.
  intros Ha r. split; [done|].
  assert (load 2 r.2 r.1 = Some (PyDict {[ KStr "ids" := to_py vector_ids ]})) as ->.
  { subst r. unfold Objects.get_vector, new_object. cbn [fst snd].
    eapply load_dict; [apply lookup_insert_eq|]. intros key.
    destruct (decide (key = KStr "ids")) as [->|]; [|by lookup_key].
    lookup_key. cbn [fmap option_fmap option_map].
    rewrite (load_strings 0 _ a_ids vector_ids); [done|].
    rewrite lookup_insert_ne; [done|]. intros E. by apply (fresh_ne _ _ _ Ha). }
  unfold get_vector, delete_vectors. by rewrite !request_sent.
Qed.

(** ** The claims *)

(** C1, as amended: for every method of the API and every base URL, the one
    request sent has as URL the base URL with all trailing slashes removed,
    followed by the documented path of the method in which each path parameter
    (index name, vector id, backup name) stands as the caller gave it; the
    client escapes nothing. *)
Theorem request_url (default_headers : gmap string string) (base : option string)
    (token : option string) (tmo : option Z) (c : api_call) (t : transport) :
  req_url <$> sent (run t [] (invoke c (__init__ default_headers base token tmo)))
  = [rstrip "/" (default "http://localhost:8080" base) +:+ Spec.documented_path id c].
Proof.
  destruct (invoke_sent c (__init__ default_headers base token tmo) t []) as [j ->].
  reflexivity.
Qed.

(** C1 as stated fails: for the index name [a/b], the URL that
    [get_index_info] requests is not the one with the name percent-escaped. *)
Lemma get_index_info_url_not_escaped :
  req_url <$> sent (run (simulated_server 200 "") []
                      (invoke (call_get_index_info "a/b")
                         (__init__ ∅ (Some "http://localhost:8080/") None None)))
  ≠ [rstrip "/" "http://localhost:8080/"
     +:+ Spec.documented_path Spec.percent_escape (call_get_index_info "a/b")].
Proof. vm_compute. discriminate. Qed.

(** C2, as amended: for every response with a status code of 400 or more the
    call raises [EndeeAPIError] with the status code and the raw body.  Its
    message is the value of the "error" field when the body is a JSON object
    that has one; the generic "API request failed with status N" when the body
    is a JSON object without that field, or is empty; and the raw text when
    the body is not empty and does not decode as JSON. *)
Theorem api_error (c : api_call) (self : EndeeClient) (t : transport)
    (log : list PreparedRequest) (response : Response) :
  (∀ req, t log req = inl response) →
  400 ≤ status_code response →
  let generic :=
    PyStr ("API request failed with status " +:+ pretty (status_code response)) in
  ∃ message,
    outcome (run t log (invoke c self))
    = Raise (EndeeAPIError message (status_code response) (text response))
    ∧ (∀ d v, Response_json response = Return (PyDict d) →
              d !! KStr "error" = Some v → message = v)
    ∧ (∀ d, Response_json response = Return (PyDict d) →
            d !! KStr "error" = None → message = generic)
    ∧ (Response_json response = Raise JSONDecodeError →
       text response ≠ "" → message = PyStr (text response))
    ∧ (text response = "" → message = generic).
Proof.
  intros Ht Hs generic. destruct (invoke_request c) as [j ->].
  eexists. split; [by apply request_error|].
  unfold mbind, result_mbind, result_bind, py_contains, py_getitem.
  repeat split.
  - intros d v -> Hv. rewrite Hv. by rewrite bool_decide_true by eauto.
  - intros d -> Hv. rewrite Hv. by rewrite bool_decide_false by (intros [? ?]; done).
  - intros -> Hne. by destruct (text response).
  - intros He. unfold Response_json. by rewrite He, json_loads_empty.
Qed.

(** A 404 response with body [{"error": "index not found"}] makes
    [get_index_info] fail with status 404 and message "index not found". *)
Lemma api_error_index_not_found :
  outcome (run (simulated_server 404 body_index_not_found) []
             (invoke (call_get_index_info "idx") local_client))
  = Raise (EndeeAPIError (PyStr "index not found") 404 body_index_not_found).
Proof.
  destruct (api_error (call_get_index_info "idx") local_client
              (simulated_server 404 body_index_not_found) []
              {| status_code := 404; text := body_index_not_found |})
    as (message & -> & Hfield & _); [reflexivity|simpl; lia|].
  f_equal. f_equal.
  apply (Hfield {[ KStr "error" := PyStr "index not found" ]}); reflexivity.
Defined.

(** C2 as stated fails: the body [{"msg": "x"}] decodes, has no "error" field
    and is not empty, yet the message is the generic one, not the raw text. *)
Lemma api_error_without_field_is_generic :
  ¬ (∃ message,
       outcome (run (simulated_server 500 body_without_error) []
                  (invoke (call_get_index_info "idx") local_client))
       = Raise (EndeeAPIError message 500 body_without_error)
       ∧ message = PyStr body_without_error).
Proof.
  intros (message & H & ->). vm_compute in H. discriminate H.
Qed.

(** C3, as amended: in the body of [search_vectors], "ef_search" is present
    exactly when a value was given, "filter" exactly when the filter expression
    is a non-empty string, and "sparse_vector" exactly when the sparse vector
    is a non-empty mapping, each with the value given; no key is bound to
    [None]; and when none of the three is given the keys are "vector" and "k"
    alone. *)
Theorem search_payload (self : EndeeClient) (t : transport) (index_name : string)
    (vector : list float) (k ef_search : option Z) (filter_expr : option string)
    (sparse_vector : option (gmap Z float)) :
  ∃ data : gmap pykey pyval,
    req_json <$> sent (run t [] (search_vectors index_name vector k ef_search
                                   filter_expr sparse_vector self))
    = [Some (PyDict data)]
    ∧ data !! KStr "ef_search" = PyInt <$> ef_search
    ∧ data !! KStr "filter"
      = (s ← filter_expr; if decide (s = "") then None else Some (PyStr s))
    ∧ data !! KStr "sparse_vector"
      = (d ← sparse_vector; if decide (d = ∅) then None else Some (to_py d))
    ∧ (∀ key, data !! key ≠ Some PyNone)
    ∧ (ef_search = None → filter_expr = None → sparse_vector = None →
       dom data = {[KStr "vector"; KStr "k"]}).
Proof.
  unfold search_vectors. rewrite request_sent. eexists. split; [reflexivity|].
  destruct ef_search as [ef|], filter_expr as [f|], sparse_vector as [sv|];
    cbn [truthy truthy_option mbind option_bind fmap option_fmap option_map];
    rewrite ?truthy_string_nonempty, ?truthy_gmap_nonempty;
    repeat case_decide; simplify_eq.
  all: cbn [bool_decide decide_rel].
  all: try rewrite (bool_decide_true (Some _ ≠ None)) by done.
  all: try rewrite (bool_decide_false (None ≠ None)) by (intros H'; done).
  all: repeat split; try done.
  all: lazymatch goal with
       | |- ∀ key, _ !! key ≠ Some PyNone =>
           repeat lazymatch goal with
                  | |- ∀ key, <[_ := _]> _ !! key ≠ _ =>
                      apply insert_no_None; [discriminate|]
                  | |- ∀ key, {[_ := _]} !! key ≠ _ =>
                      apply singleton_no_None; discriminate
                  end
       | |- _ → _ => intros _ _ _; rewrite dom_insert_L, dom_singleton_L; set_solver
       | |- _ => by simplify_map_eq
       end.
Qed.

(** A search with none of the three: the body has the keys "vector" and "k". *)
Lemma search_payload_plain :
  ∃ data : gmap pykey pyval,
    req_json <$> sent (run (simulated_server 200 "") []
                         (search_vectors "idx" [0.5%float] None None None None
                            local_client))
    = [Some (PyDict data)]
    ∧ dom data = {[KStr "vector"; KStr "k"]}.
Proof.
  destruct (search_payload local_client (simulated_server 200 "") "idx" [0.5%float]
              None None None None) as (data & Hsent & _ & _ & _ & _ & Hdom).
  exists data. split; [exact Hsent|]. apply Hdom; reflexivity.
Defined.

(** C3 as stated fails: an empty filter expression is a value the caller
    supplied, and the body has no "filter" key. *)
Lemma search_empty_filter_not_sent :
  ¬ (∃ data : gmap pykey pyval,
       req_json <$> sent (run (simulated_server 200 "") []
                            (search_vectors "idx" [] None None (Some "") None
                               local_client))
       = [Some (PyDict data)]
       ∧ is_Some (data !! KStr "filter")).
Proof.
  intros (data & H & [v Hv]). vm_compute in H. by simplify_eq.
Qed.

(** C4: whatever method of the API is called, a transport failure makes it
    raise [EndeeConnectionError] with the description of the failure in its
    message, and not [EndeeAPIError]; the request was sent once and [self] is
    untouched. *)
Theorem transport_failure (c : api_call) (self : EndeeClient) (t : transport)
    (log : list PreparedRequest) (e : string) :
  (∀ req, t log req = inr e) →
  ∃ req,
    run t log (invoke c self)
    = (Raise (EndeeConnectionError ("Failed to connect to Endee server: " +:+ e)),
       self, log ++ [req])
    ∧ ∀ message status body,
        outcome (run t log (invoke c self)) ≠ Raise (EndeeAPIError message status body).
Proof.
  intros Ht. destruct (invoke_request c) as [j Hc].
  pose proof (request_failure t log self (Spec.documented_method c)
                (Spec.documented_path id c) j None None e (Ht _)) as Ho.
  pose proof (request_self t log self (Spec.documented_method c)
                (Spec.documented_path id c) j None None) as Hself.
  pose proof (request_sent t log self (Spec.documented_method c)
                (Spec.documented_path id c) j None None) as Hsent.
  rewrite <- Hc in Ho, Hself, Hsent. eexists. split.
  - destruct (run t log (invoke c self)) as [[o s'] l']; cbn in *. by subst.
  - intros message status body. by rewrite Ho.
Qed.

(** A refused connection under [health_check]. *)
Lemma transport_failure_refused :
  ∃ req,
    run (failing_transport "Connection refused") [] (invoke call_health_check local_client)
    = (Raise (EndeeConnectionError
                "Failed to connect to Endee server: Connection refused"),
       local_client, [req]).
Proof.
  destruct (transport_failure call_health_check local_client
              (failing_transport "Connection refused") [] "Connection refused")
    as (req & H & _); [reflexivity|].
  exists req. exact H.
Defined.

(** C5: for every method of the API, a response with a status code below 400
    gives the empty dictionary when its body is empty, and the decoded JSON
    value when its body is not empty and decodes. *)
Theorem success_response (c : api_call) (self : EndeeClient) (t : transport)
    (log : list PreparedRequest) (response : Response) :
  (∀ req, t log req = inl response) →
  status_code response < 400 →
  (text response = "" → outcome (run t log (invoke c self)) = Return (PyDict ∅))
  ∧ (∀ v, text response ≠ "" → Response_json response = Return v →
          outcome (run t log (invoke c self)) = Return v).
Proof.
  intros Ht Hs. destruct (invoke_request c) as [j ->].
  rewrite (request_success _ _ _ _ _ _ _ _ response (Ht _) Hs).
  split.
  - by intros ->.
  - intros v Hne ->. by destruct (text response).
Qed.

(** Status 200 with an empty body under [list_indexes], and with the body
    [[1, 2]] under [get_stats]. *)
Lemma success_response_examples :
  outcome (run (simulated_server 200 "") [] (invoke call_list_indexes local_client))
  = Return (PyDict ∅)
  ∧ outcome (run (simulated_server 200 "[1, 2]") [] (invoke call_get_stats local_client))
    = Return (PyList [PyInt 1; PyInt 2]).
Proof.
  split.
  - destruct (success_response call_list_indexes local_client (simulated_server 200 "") []
                {| status_code := 200; text := "" |}) as [Hempty _];
      [reflexivity|reflexivity|].
    apply Hempty. reflexivity.
  - destruct (success_response call_get_stats local_client
                (simulated_server 200 "[1, 2]") []
                {| status_code := 200; text := "[1, 2]" |}) as [_ Hbody];
      [reflexivity|reflexivity|].
    apply Hbody; [discriminate|reflexivity].
Defined.

(** C6: [create_index("idx", 128, "cosine")] sends a body with dim 128, space
    type "cosine" and the defaults ef_construction 200, m 16, quant_type
    "none", enable_sparse false (next to the index name). *)
Theorem create_index_defaults (self : EndeeClient) (t : transport) :
  req_json <$> sent (run t [] (create_index "idx" 128 (Some "cosine") None None None None
                                 self))
  = [Some (PyDict {[ KStr "index_name" := PyStr "idx";
                     KStr "dim" := PyInt 128;
                     KStr "space_type" := PyStr "cosine";
                     KStr "ef_construction" := PyInt 200;
                     KStr "m" := PyInt 16;
                     KStr "quant_type" := PyStr "none";
                     KStr "enable_sparse" := PyBool false ]})].
Proof. unfold create_index. rewrite request_sent. reflexivity. Qed.

(** Every call of [session.request] that a script makes is made under the
    headers of the session of the client it started with: no method passes
    headers of its own, and none changes those of the session. *)
Lemma script_headers (ops : list op) (self : EndeeClient) (t : transport) :
  Forall (λ r, req_headers r = headers (_session self))
    (sent (run t [] (script ops self))).
Proof.
  destruct (script_sent ops self t []) as (new & -> & Hnew).
  rewrite app_nil_l. eapply Forall_impl; [exact Hnew|].
  by intros r (c & j & ->).
Qed.

(** C7, as amended.  The statement is about the header setting the client
    gives its session and under which it calls [session.request], which is
    all the client does about the header.  Constructed with a non-empty
    token, the client sets "Authorization" on its session to the token as
    given, and every call of every sequence of method calls and closes is
    made with that value as its "Authorization" setting.  Constructed
    without a token or with an empty one, the client sets nothing:
    "Authorization" is, on the session and for every call, what a fresh
    session has for it by default. *)
Theorem authorization_header (default_headers : gmap string string)
    (base : option string) (tmo : option Z) (ops : list op) (t : transport) :
  (∀ token : string, token ≠ "" →
     let self := __init__ default_headers base (Some token) tmo in
     headers (_session self) !! "Authorization" = Some token
     ∧ Forall (λ r, req_headers r !! "Authorization" = Some token)
         (sent (run t [] (script ops self))))
  ∧ (∀ auth : option string, auth = None ∨ auth = Some "" →
     let self := __init__ default_headers base auth tmo in
     headers (_session self) !! "Authorization" = default_headers !! "Authorization"
     ∧ Forall (λ r, req_headers r !! "Authorization"
                    = default_headers !! "Authorization")
         (sent (run t [] (script ops self)))).
Proof.
  split.
  - intros token Hne self.
    assert (headers (_session self) !! "Authorization" = Some token) as Hs.
    { subst self. cbn. destruct token; [done|]. cbn.
      apply lookup_union_Some_l, lookup_singleton_eq. }
    split; [exact Hs|]. eapply Forall_impl; [apply script_headers|].
    by intros r ->.
  - intros auth Hauth self.
    assert (headers (_session self) = default_headers) as Hs.
    { subst self. by destruct Hauth as [-> | ->]. }
    split; [by rewrite Hs|]. eapply Forall_impl; [apply script_headers|].
    intros r ->. by rewrite Hs.
Qed.

(** The token [secret] is the setting of both calls of a script that closes in
    between. *)
Lemma authorization_header_secret :
  let log := sent (run (simulated_server 200 "") []
                     (script [Api call_health_check; Close; Api call_list_indexes]
                        (__init__ ∅ None (Some "secret") None))) in
  length log = 2%nat ∧ Forall (λ r, req_headers r !! "Authorization" = Some "secret") log.
Proof.
  split; [reflexivity|].
  apply (authorization_header ∅ None None
           [Api call_health_check; Close; Api call_list_indexes]
           (simulated_server 200 "")).
  discriminate.
Defined.

(** C7 as stated fails: the empty string is a token the caller supplied, and
    the call is not made with it. *)
Lemma empty_token_not_sent :
  ¬ Forall (λ r, req_headers r !! "Authorization" = Some "")
      (sent (run (simulated_server 200 "") []
               (script [Api call_health_check] (__init__ ∅ None (Some "") None)))).
Proof. vm_compute. intros H. inversion H as [|? ? Hhead _]. discriminate Hhead. Qed.

(** C8, as amended: closing twice returns [None] both times, sends nothing and
    leaves a client that differs only in its session being closed; the client
    keeps no closed state of its own, and every method of the API called after
    [close] sends the request and gives the outcome it would have given
    before. *)
Theorem close_twice_then_call (self : EndeeClient) (t : transport)
    (log : list PreparedRequest) :
  run t log ((close;; close) self) = (Return PyNone, closed_client self, log)
  ∧ ∀ c : api_call,
      outcome (run t log ((close;; invoke c) self)) = outcome (run t log (invoke c self))
      ∧ sent (run t log ((close;; invoke c) self)) = sent (run t log (invoke c self)).
Proof.
  split; [reflexivity|]. intros c.
  change (run t log ((close;; invoke c) self))
    with (run t log (invoke c (closed_client self))).
  by destruct (invoke_same_config self (closed_client self) t log c
                 (closed_same_config self)) as [-> ->].
Qed.

(** C8 as stated fails: [health_check] after [close] does not raise, and its
    request reaches the server. *)
Lemma health_check_after_close :
  let x := run (simulated_server 200 "") [] ((close;; health_check) local_client) in
  (¬ ∃ e, outcome x = Raise e) ∧ sent x ≠ [].
Proof. vm_compute. split; [intros [e H]|intros H]; discriminate H. Qed.




(** C10: an empty filter expression and an empty sparse vector give the very
    program of the call that omits them, so the same request and body, while
    [ef_search] is in the body for every value given, 0 included.  What
    decides is the truth value of the argument: in the body of any search,
    "filter" is bound, to the string given, when that string is not empty,
    and is absent when it is empty or omitted; "sparse_vector" is bound, to
    the mapping given, when that mapping is not empty, and is absent when it
    is empty or omitted; and "ef_search" is absent only when omitted. *)
Theorem search_falsy_arguments (index_name : string) (vector : list float)
    (k ef_search : option Z) (filter_expr : option string)
    (sparse_vector : option (gmap Z float)) :
  search_vectors index_name vector k ef_search (Some "") sparse_vector
  = search_vectors index_name vector k ef_search None sparse_vector
  ∧ search_vectors index_name vector k ef_search filter_expr (Some ∅)
    = search_vectors index_name vector k ef_search filter_expr None
  ∧ (∀ (self : EndeeClient) (t : transport) (ef : Z),
      ∃ data : gmap pykey pyval,
        req_json <$> sent (run t [] (search_vectors index_name vector k (Some ef)
                                       filter_expr sparse_vector self))
        = [Some (PyDict data)]
        ∧ data !! KStr "ef_search" = Some (PyInt ef))
  ∧ ∀ (self : EndeeClient) (t : transport),
      ∃ data : gmap pykey pyval,
        req_json <$> sent (run t [] (search_vectors index_name vector k ef_search
                                       filter_expr sparse_vector self))
        = [Some (PyDict data)]
        ∧ (∀ f : string, filter_expr = Some f → f ≠ "" →
           data !! KStr "filter" = Some (PyStr f))
        ∧ (filter_expr = None ∨ filter_expr = Some "" →
           data !! KStr "filter" = None)
        ∧ (∀ d : gmap Z float, sparse_vector = Some d → d ≠ ∅ →
           data !! KStr "sparse_vector" = Some (to_py d))
        ∧ (sparse_vector = None ∨ sparse_vector = Some ∅ →
           data !! KStr "sparse_vector" = None)
        ∧ (ef_search = None → data !! KStr "ef_search" = None).
Proof.
  split; [reflexivity|]. split; [reflexivity|]. split.
  - intros self t ef. unfold search_vectors. rewrite request_sent.
    eexists. split; [reflexivity|].
    rewrite bool_decide_true by done.
    destruct (truthy filter_expr), (truthy sparse_vector); by simplify_map_eq.
  - intros self t. unfold search_vectors. rewrite request_sent.
    eexists. split; [reflexivity|].
    destruct ef_search as [ef|], filter_expr as [f|], sparse_vector as [sv|];
      cbn [truthy truthy_option];
      rewrite ?truthy_string_nonempty, ?truthy_gmap_nonempty;
      repeat case_decide; simplify_eq.
    all: cbn [bool_decide decide_rel].
    all: try rewrite (bool_decide_true (Some _ ≠ None)) by done.
    all: try rewrite (bool_decide_false (None ≠ None)) by (intros H'; done).
    all: split; [intros f' Hf' Hne|split; [intros Hf'|split;
           [intros d' Hd' Hne|split; [intros Hd'|intros Hef]]]].
    all: simplify_eq; try (destruct Hf' as [?| ?]; simplify_eq);
           try (destruct Hd' as [?| ?]; simplify_eq); try done.
    all: by simplify_map_eq.
Qed.

(** The filter [a] and the weight of token 7 are in the body, each as given. *)
Lemma search_falsy_arguments_given :
  ∃ data : gmap pykey pyval,
    req_json <$> sent (run (simulated_server 200 "") []
                         (search_vectors "idx" [] None None (Some "a")
                            (Some {[7 := 0.5%float]}) local_client))
    = [Some (PyDict data)]
    ∧ data !! KStr "filter" = Some (PyStr "a")
    ∧ data !! KStr "sparse_vector" = Some (to_py ({[7 := 0.5%float]} : gmap Z float))
    ∧ data !! KStr "ef_search" = None.
Proof.
  destruct (search_falsy_arguments "idx" [] None None (Some "a")
              (Some {[7 := 0.5%float]})) as (_ & _ & _ & H).
  destruct (H local_client (simulated_server 200 "")) as (data & Hs & Hf & _ & Hd & _ & He).
  exists data. split; [exact Hs|]. split; [|split].
  - apply Hf; [reflexivity|discriminate].
  - apply Hd; [reflexivity|]. intros E.
    apply (f_equal (λ m : gmap Z float, m !! 7)) in E. discriminate E.
  - apply He. reflexivity.
Defined.

(** ** Further properties of the client *)

Lemma append_assoc (s1 s2 s3 : string) : (s1 +:+ s2) +:+ s3 = s1 +:+ (s2 +:+ s3).
Proof.
  induction s1 as [|a s1 IH]; [done|]. rewrite !append_cons. by rewrite IH.
Qed.

(** X1: whatever the arguments, a method of the API validates nothing itself
    and makes exactly one call of [session.request].  The arguments of that
    call: the verb is the method's, the URL is the base URL followed by the
    path, there are no query parameters and no headers of the call's own, so
    that the header setting is the session's, and the timeout is the
    client's. *)
Theorem call_sends_one_request (c : api_call) (self : EndeeClient) (t : transport)
    (log : list PreparedRequest) :
  ∃ req,
    sent (run t log (invoke c self)) = log ++ [req]
    ∧ req_method req = Spec.documented_method c
    ∧ req_url req = base_url self +:+ Spec.documented_path id c
    ∧ req_headers req = headers (_session self)
    ∧ req_params req = None
    ∧ req_timeout req = timeout self.
Proof.
  destruct (invoke_sent c self t log) as [j ->]. eexists. split; [reflexivity|].
  by repeat split.
Qed.

(** X2: two outcomes of a call of the API traced back to the response.  The
    call returns a value only when [session.request] returned a response with
    a status below 400; it raises [EndeeAPIError] only when [session.request]
    returned a response with a status of 400 or more, and the error carries
    the status and the text of that response. *)
Theorem call_outcomes (c : api_call) (self : EndeeClient) (t : transport)
    (log : list PreparedRequest) :
  ∃ req,
    sent (run t log (invoke c self)) = log ++ [req]
    ∧ (∀ v, outcome (run t log (invoke c self)) = Return v →
         ∃ response, t log req = inl response ∧ status_code response < 400)
    ∧ (∀ message status body,
         outcome (run t log (invoke c self)) = Raise (EndeeAPIError message status body) →
         ∃ response, t log req = inl response ∧ 400 ≤ status_code response
                     ∧ status = status_code response ∧ body = text response).
Proof.
  destruct (invoke_request c) as [j ->].
  exists (request_of self (Spec.documented_method c) (Spec.documented_path id c)
            j None None).
  split; [apply request_sent|].
  destruct (t log (request_of self (Spec.documented_method c)
                     (Spec.documented_path id c) j None None))
    as [response|e] eqn:Ht.
  - destruct (Z.lt_ge_cases (status_code response) 400) as [Hs|Hs].
    + rewrite (request_success _ _ _ _ _ _ _ _ response Ht Hs).
      repeat split.
      * intros v _. by exists response.
      * intros message status body H. destruct (truthy (text response)); [|done].
        by apply Response_json_raise in H.
    + rewrite (request_error _ _ _ _ _ _ _ _ response Ht Hs).
      repeat split.
      * intros v H. done.
      * intros message status body [= _ <- <-]. by exists response.
  - rewrite (request_failure _ _ _ _ _ _ _ _ e Ht). repeat split; intros; simplify_eq.
Qed.

Lemma existsb_error (l : list pyval) :
  existsb (λ v, match v with
                | PyStr s => bool_decide (s = "error")
                | _ => false
                end) l = true
  ↔ PyStr "error" ∈ l.
Proof.
  induction l as [|x l IH]; simpl.
  - split; [done|by intros ?%elem_of_nil].
  - rewrite orb_true_iff, elem_of_cons. split.
    + intros [Hx|Hl]; [left|right; by apply IH].
      destruct x as [| | | |s| |]; try done. by apply bool_decide_eq_true in Hx as ->.
    + intros [<-|Hl]; [left; by apply bool_decide_eq_true|right; by apply IH].
Qed.

(** X3: a response with a status of 400 or more whose body is JSON but not
    an object.  The message is the raw text when the body is [null], a
    boolean or a number, when it is an array that has the string "error"
    among its elements, and when it is a string that contains "error"; it is
    the generic message when it is an array or a string without "error". *)
Theorem api_error_non_object (c : api_call) (self : EndeeClient) (t : transport)
    (log : list PreparedRequest) (response : Response) (v : pyval) :
  (∀ req, t log req = inl response) →
  400 ≤ status_code response →
  Response_json response = Return v →
  let raise_with message :=
    outcome (run t log (invoke c self))
    = Raise (EndeeAPIError message (status_code response) (text response)) in
  let generic :=
    PyStr ("API request failed with status " +:+ pretty (status_code response)) in
  match v with
  | PyNone | PyBool _ | PyInt _ | PyFloat _ => raise_with (PyStr (text response))
  | PyList l =>
      (PyStr "error" ∈ l → raise_with (PyStr (text response)))
      ∧ (PyStr "error" ∉ l → raise_with generic)
  | PyStr s =>
      (index 0 "error" s ≠ None → raise_with (PyStr (text response)))
      ∧ (index 0 "error" s = None → raise_with generic)
  | PyDict _ => True
  end.
Proof.
  intros Ht Hs Hv raise_with generic. subst raise_with. cbn beta.
  destruct (invoke_request c) as [j ->].
  rewrite (request_error _ _ _ _ _ _ _ _ response (Ht _) Hs), Hv.
  assert (truthy (text response) = true) as Htext.
  { destruct (text response) eqn:E; [|done].
    unfold Response_json in Hv. by rewrite E, json_loads_empty in Hv. }
  unfold mbind, result_mbind, result_bind, py_contains, py_getitem.
  destruct v as [|b|z|f|s|l|d]; try (by rewrite Htext); [| |done].
  - destruct (index 0 "error" s) eqn:E; split; try done. intros _. by rewrite Htext.
  - pose proof (existsb_error l) as Hl.
    destruct (existsb _ l); split.
    + intros _. by rewrite Htext.
    + intros Hnin. destruct Hnin. by apply Hl.
    + intros Hin. by apply Hl in Hin.
    + done.
Qed.

(** The body ["internal error"], a JSON string, under status 500. *)
Lemma api_error_non_object_string :
  outcome (run (simulated_server 500 (q +:+ "internal error" +:+ q)) []
             (invoke call_get_stats local_client))
  = Raise (EndeeAPIError (PyStr (q +:+ "internal error" +:+ q)) 500
             (q +:+ "internal error" +:+ q)).
Proof.
  destruct (api_error_non_object call_get_stats local_client
              (simulated_server 500 (q +:+ "internal error" +:+ q)) []
              {| status_code := 500; text := q +:+ "internal error" +:+ q |}
              (PyStr "internal error")) as [Hraw _];
    [reflexivity|simpl; lia|reflexivity|].
  apply Hraw. vm_compute. discriminate.
Defined.

(** X4: the base URL the constructor stores never ends in a slash, differs
    from the one given by trailing slashes only, and is a fixed point:
    constructing from it again stores the same. *)
Theorem base_url_normalised (default_headers : gmap string string) (base : string)
    (token : option string) (tmo : option Z) :
  let self := __init__ default_headers (Some base) token tmo in
  last_char (base_url self) ≠ Some "/"%char
  ∧ (∃ n, base = base_url self +:+ repeat_char "/" n)
  ∧ base_url (__init__ default_headers (Some (base_url self)) token tmo) = base_url self.
Proof.
  cbn. split; [apply rstrip_last|]. split; [apply rstrip_decompose|apply rstrip_idemp].
Qed.

(** X5: path parameters are not escaped, so a slash in a name changes the
    route.  [delete_index] on the name [x/vector/y] is the very call
    [delete_vector] on index [x] and vector [y], and [delete_vector] cannot
    tell the index [a/vector/b] with vector [c] from the index [a] with
    vector [b/vector/c]. *)
Theorem unescaped_names_alias (x y z : string) :
  delete_index (x +:+ "/vector/" +:+ y) = delete_vector x y
  ∧ delete_vector (x +:+ "/vector/" +:+ y) z = delete_vector x (y +:+ "/vector/" +:+ z).
Proof.
  unfold delete_index, delete_vector. split; f_equal; f_equal.
  - by rewrite !append_assoc.
  - by rewrite !append_assoc.
Qed.

(** The call that a single operation makes does not depend on the transport. *)
Lemma perform_sent (o : op) (self : EndeeClient) (t : transport) log :
  sent (run t log (perform o self))
  = log ++ match o with
           | Api c => sent (run (failing_transport "") [] (invoke c self))
           | Close => []
           end.
Proof.
  destruct o as [c|]; cbn [perform].
  - destruct (invoke_request c) as [j ->]. by rewrite !request_sent.
  - by rewrite run_close, app_nil_r.
Qed.

Lemma perform_self (o : op) (self : EndeeClient) (t1 t2 : transport) log1 log2 :
  final_self (run t1 log1 (perform o self)) = final_self (run t2 log2 (perform o self)).
Proof.
  destruct o as [c|]; cbn [perform]; [by rewrite !invoke_self|by rewrite !run_close].
Qed.

(** X7: a sequence of method calls and closes makes one call of
    [session.request] for each call of the API, in the order of the calls and
    each with the verb and the URL of its method, and none for a close: the
    client itself caches, batches and repeats nothing.  What requests does
    within one such call is not counted. *)
Theorem script_one_request_per_call (ops : list op) (self : EndeeClient)
    (t : transport) (log : list PreparedRequest) :
  ∃ new,
    sent (run t log (script ops self)) = log ++ new
    ∧ Forall2 (λ c req, req_method req = Spec.documented_method c
                        ∧ req_url req = base_url self +:+ Spec.documented_path id c)
        (api_calls ops) new.
Proof.
  revert self log. induction ops as [|o ops IH]; intros self log.
  - exists []. split; [by rewrite app_nil_r|constructor].
  - rewrite run_script_cons. cbn [sent fst snd].
    pose proof (perform_same_config o self t log) as (Hu & _ & _ & _).
    destruct (IH (final_self (run t log (perform o self)))
                 (sent (run t log (perform o self)))) as (new & -> & Hnew).
    rewrite <- Hu in Hnew. destruct o as [c|]; cbn [perform api_calls omap] in *.
    + destruct (invoke_sent c self t log) as [j ->].
      eexists (_ :: new). rewrite <- app_assoc. split; [done|].
      constructor; [done|]. exact Hnew.
    + rewrite run_close. exists new. by split.
Qed.

(** X8: the calls of [session.request] that a sequence of method calls and
    closes makes, with their arguments, and the fields of the client it
    leaves, are the same whatever the earlier calls returned or raised: the
    client itself never retries, follows up or adapts a call to an earlier
    answer. *)
Theorem script_requests_ignore_answers (ops : list op) (self : EndeeClient)
    (t1 t2 : transport) (log : list PreparedRequest) :
  sent (run t1 log (script ops self)) = sent (run t2 log (script ops self))
  ∧ final_self (run t1 log (script ops self)) = final_self (run t2 log (script ops self)).
Proof.
  revert self log. induction ops as [|o ops IH]; intros self log; [done|].
  rewrite !run_script_cons. cbn [sent final_self fst snd].
  rewrite (perform_sent o self t1), (perform_sent o self t2).
  rewrite (perform_self o self t1 t2 log log). apply IH.
Qed.

(** X9: a [with] block runs its body on the client, then closes the session
    whether the body returned or raised; it sends what the body sends, gives
    the value of the body, and lets through whatever the body raised. *)
Theorem with_statement_closes {A} (body : M A) (self : EndeeClient) (t : transport)
    (log : list PreparedRequest) :
  final_self (run t log (with_statement body self))
  = closed_client (final_self (run t log (body self)))
  ∧ sent (run t log (with_statement body self)) = sent (run t log (body self))
  ∧ outcome (run t log (with_statement body self))
    = match outcome (run t log (body self)) with
      | Return a => Return (Some a)
      | Raise e => Raise e
      end.
Proof.
  unfold with_statement, __enter__, __exit__, close, attempt, get_self, put_self.
  unfold mbind, M_bind, mret, M_ret, raise, outcome, final_self, sent.
  cbn [io_bind]. rewrite !run_bind.
  destruct (run t log (body self)) as [[[a|e] self'] log']; done.
Qed.

(** The outcome of [_request] is a function of the answer to its request. *)
Lemma request_outcome_of_answer (t : transport) log (a b : EndeeClient)
    (m1 e1 : string) (j1 p1 : option pyval) (h1 : option (gmap string string))
    (m2 e2 : string) (j2 p2 : option pyval) (h2 : option (gmap string string)) :
  t log (request_of a m1 e1 j1 p1 h1) = t log (request_of b m2 e2 j2 p2 h2) →
  outcome (run t log (_request m1 e1 j1 p1 h1 a))
  = outcome (run t log (_request m2 e2 j2 p2 h2 b)).
Proof.
  intros Ht. destruct (t log (request_of b m2 e2 j2 p2 h2)) as [response|e] eqn:Hb.
  - destruct (Z.lt_ge_cases (status_code response) 400) as [Hs|Hs].
    + by rewrite (request_success _ _ _ _ _ _ _ _ response Ht Hs),
                 (request_success _ _ _ _ _ _ _ _ response Hb Hs).
    + by rewrite (request_error _ _ _ _ _ _ _ _ response Ht Hs),
                 (request_error _ _ _ _ _ _ _ _ response Hb Hs).
  - by rewrite (request_failure _ _ _ _ _ _ _ _ e Ht),
               (request_failure _ _ _ _ _ _ _ _ e Hb).
Qed.

(** X10: how a response is turned into a result does not depend on the
    method called nor on the client: under the same answer of the network,
    any two calls of the API have the same outcome. *)
Theorem outcome_independent_of_method (c1 c2 : api_call) (self1 self2 : EndeeClient)
    (t : transport) (log : list PreparedRequest) (answer : Response + string) :
  (∀ req, t log req = answer) →
  outcome (run t log (invoke c1 self1)) = outcome (run t log (invoke c2 self2)).
Proof.
  intros Ht. destruct (invoke_request c1) as [j1 ->], (invoke_request c2) as [j2 ->].
  apply request_outcome_of_answer. by rewrite !Ht.
Qed.

(** [health_check] and [delete_backup] under a 404 answer. *)
Lemma outcome_independent_of_method_404 :
  outcome (run (simulated_server 404 body_index_not_found) []
             (invoke call_health_check local_client))
  = outcome (run (simulated_server 404 body_index_not_found) []
               (invoke (call_delete_backup "b") (closed_client local_client))).
Proof.
  apply (outcome_independent_of_method call_health_check (call_delete_backup "b")
           local_client (closed_client local_client)
           (simulated_server 404 body_index_not_found) []
           (inl {| status_code := 404; text := body_index_not_found |})).
  reflexivity.
Defined.

(** X11: the token is read once, by the constructor.  Assigning another
    value to [auth_token] afterwards changes neither what a call sends (the
    header set at construction stays) nor what it returns. *)
Theorem auth_token_read_at_construction (self : EndeeClient) (token : option string)
    (c : api_call) (t : transport) (log : list PreparedRequest) :
  let self' := {| base_url := base_url self; auth_token := token;
                  timeout := timeout self; _session := _session self |} in
  sent (run t log (invoke c self')) = sent (run t log (invoke c self))
  ∧ outcome (run t log (invoke c self')) = outcome (run t log (invoke c self)).
Proof.
  cbn zeta. destruct (invoke_request c) as [j ->]. rewrite !request_sent.
  split; [done|]. by apply request_outcome_of_answer.
Qed.

(** X12: the body of [search_vectors] always has the query vector, element
    by element in order, under "vector" and the number of results under "k",
    10 when none is given and otherwise the number given, whatever it is; and
    it has no key besides these two and "ef_search", "filter" and
    "sparse_vector". *)
Theorem search_required_fields (self : EndeeClient) (t : transport)
    (index_name : string) (vector : list float) (k ef_search : option Z)
    (filter_expr : option string) (sparse_vector : option (gmap Z float)) :
  ∃ data : gmap pykey pyval,
    req_json <$> sent (run t [] (search_vectors index_name vector k ef_search
                                   filter_expr sparse_vector self))
    = [Some (PyDict data)]
    ∧ data !! KStr "vector" = Some (PyList (PyFloat <$> vector))
    ∧ data !! KStr "k" = Some (PyInt (default 10 k))
    ∧ dom data ⊆ {[KStr "vector"; KStr "k"; KStr "ef_search"; KStr "filter";
                   KStr "sparse_vector"]}.
Proof.
  unfold search_vectors. rewrite request_sent. eexists. split; [reflexivity|].
  destruct (bool_decide (ef_search ≠ None)), (truthy filter_expr),
    (truthy sparse_vector).
  all: split; [by simplify_map_eq|]; split; [by simplify_map_eq|].
  all: rewrite ?dom_insert_L, dom_singleton_L; apply elem_of_subseteq; intros x;
    rewrite !elem_of_union, !elem_of_singleton; tauto.
Qed.

(** A body of white space only is not a JSON document. *)
Lemma json_loads_blank (s : string) : skip_ws s = "" → json_loads s = Raise JSONDecodeError.
Proof.
  intros H. unfold json_loads. rewrite H.
  by replace (2 * String.length s + 2)%nat with (S (2 * String.length s + 1)) by lia.
Qed.

(** X13: a response with a status below 400 whose body is not empty but is
    white space only is not taken for an empty one: the call does not return
    the empty dictionary, nor any value; it raises. *)
Theorem blank_success_body_raises (c : api_call) (self : EndeeClient) (t : transport)
    (log : list PreparedRequest) (response : Response) :
  (∀ req, t log req = inl response) →
  status_code response < 400 →
  text response ≠ "" →
  skip_ws (text response) = "" →
  ∃ e, outcome (run t log (invoke c self)) = Raise e.
Proof.
  intros Ht Hs Hne Hblank. destruct (invoke_request c) as [j ->].
  rewrite (request_success _ _ _ _ _ _ _ _ response (Ht _) Hs).
  destruct (text response) eqn:E; [done|]. rewrite <- E in Hblank.
  unfold Response_json. rewrite (json_loads_blank _ Hblank). by eexists.
Qed.

(** Status 200 with a line break as body under [health_check]. *)
Lemma blank_success_body_newline :
  ∃ e, outcome (run (simulated_server 200 (String "010" "")) []
                  (invoke call_health_check local_client)) = Raise e.
Proof.
  apply (blank_success_body_raises call_health_check local_client
           (simulated_server 200 (String "010" "")) []
           {| status_code := 200; text := String "010" "" |});
    [reflexivity|reflexivity|discriminate|reflexivity].
Defined.

(** X15: no method of the API sends a body with GET or DELETE: a request
    with a JSON body is a POST (and the POST requests of [create_backup] and
    [restore_backup] have none). *)
Theorem body_only_with_post (c : api_call) (self : EndeeClient) (t : transport)
    (log : list PreparedRequest) :
  ∃ req,
    sent (run t log (invoke c self)) = log ++ [req]
    ∧ (req_json req ≠ None → req_method req = "POST")
    ∧ (req_json req = None ↔
       match c with
       | call_create_index _ _ _ _ _ _ _ | call_insert_vectors _ _
       | call_search_vectors _ _ _ _ _ _ | call_get_vector _ _
       | call_delete_vectors _ _ | call_update_filters _ _ => False
       | _ => True
       end).
Proof.
  destruct c; cbn [invoke];
    unfold health_check, get_stats, create_index, list_indexes, get_index_info,
      delete_index, insert_vectors, search_vectors, get_vector, delete_vector,
      delete_vectors, update_filters, create_backup, list_backups, restore_backup,
      delete_backup;
    rewrite request_sent; eexists; (split; [reflexivity|]); cbn [req_json req_method request_of];
    split; try done; split; done.
Qed.
